(** * Energy provider system: usage accounting, billing, payments, reminders,
      directory search and report percentages

    A shallow embedding of [energyprovider2.0.cxx].  The older
    [energyprovider.cxx] has the same [Payment] and [Customer] methods, the
    same [addCustomer], [doBilling] and [findCustomers], and report code that
    divides by the same counts and sums, unguarded as well.

    Data, as the code has it:
    - [double] is IEEE 754 binary64, the kernel's primitive [float]; its
      operations [+ - * /] and comparisons [<=? <? =?] are the machine's,
      rounding, infinities and NaN included;
    - [time_t] is an integer number of seconds, a [Z]; every method that calls
      [time(nullptr)] takes the clock reading [now] as an argument, one
      reading per call;
    - [int] values (customer ids, bill indices, day counts) are [Z];
    - [std::string] is [string], [std::vector] is [list], the province index
      [std::map<string, vector<int>>] is a [gmap string (list Z)];
    - a method that mutates its object returns the new object, next to its
      C++ return value when it has one.

    Day counts.  [getDaysSince] divides [difftime(now, date)] by [60*60*24]
    in [double] and converts the quotient to [int], which truncates.  For
    [|now - date| < 2^31 * 86400] the difference is exact in binary64 and a
    quotient that is not a whole number lies at least [1/86400] away from the
    next one, far more than the rounding error of the division, so the
    truncated quotient is the integer quotient [Z.quot (now - date) 86400].
    A quotient beyond the range of [int] cannot be converted: C++ leaves the
    result undefined, and the conversion instruction of the compiled program
    gives [INT_MIN].  The model computes the integer quotient and converts
    it with [to_int], which gives [INT_MIN] outside the range of [int], so
    from [2^31] days on a bill's day count is [INT_MIN]. *)

From Stdlib Require Import ZArith Lia String Ascii DecimalString Floats Sorted.
From stdpp Require Import base list gmap strings.

Set Warnings "-inexact-float".

Local Open Scope Z_scope.

(** ** Strings *)

(** The line feed the code writes as a backslash followed by [n]. *)
Definition nl : string := String (ascii_of_nat 10) EmptyString.

(** [std::to_string(int)] and [operator<<(int)]: the decimal rendering. *)
Definition to_string (n : Z) : string := NilZero.string_of_int (Z.to_int n).

(** [s.find(q)]: the first position at which [q] occurs in [s]; [None] is
    [string::npos]. *)
Fixpoint find (s q : string) : option nat :=
  if String.prefix q s then Some 0%nat
  else match s with
       | EmptyString => None
       | String _ s' => option_map S (find s' q)
       end.

(** [s.find(q) != string::npos] *)
Definition found (s q : string) : bool :=
  match find s q with Some _ => true | None => false end.

(** [s.empty()] *)
Definition empty (s : string) : bool :=
  match s with EmptyString => true | String _ _ => false end.

(** What it means for [q] to occur in [s]: the reference notion the search
    is compared with. *)
Definition substring_of (q s : string) : Prop :=
  exists pre post : string, s = pre +:+ q +:+ post.

(** [a] is one of the characters of [s]. *)
Fixpoint has_char (a : ascii) (s : string) : bool :=
  match s with
  | EmptyString => false
  | String b s' => Ascii.eqb a b || has_char a s'
  end.

(** [::tolower] in the "C" locale, which is the locale the program runs in:
    the letters [A] to [Z] go to [a] to [z], every other character stays. *)
Definition tolower (a : ascii) : ascii :=
  let n := nat_of_ascii a in
  if (65 <=? n)%nat && (n <=? 90)%nat then ascii_of_nat (n + 32) else a.

(** [std::transform(s.begin(), s.end(), s.begin(), f)] *)
Fixpoint transform (f : ascii -> ascii) (s : string) : string :=
  match s with
  | EmptyString => EmptyString
  | String a s' => String (f a) (transform f s')
  end.

(** [v[i]] on a [vector<string>].  The code indexes its tables with values
    drawn between [0] and [size() - 1]; outside these bounds the access is
    undefined in C++, and the model gives the empty string. *)
Definition at_index (v : list string) (i : Z) : string :=
  if 0 <=? i then default EmptyString (v !! Z.to_nat i) else EmptyString.

(** ** Numbers *)

(** The conversion to [int] of a [double] whose whole part is [q].  A value
    out of the range of [int] has no defined conversion in C++; the compiled
    program's conversion instruction gives [INT_MIN] for it, which is what
    the model gives. *)
Definition to_int (q : Z) : Z :=
  if (-2147483648 <=? q) && (q <=? 2147483647) then q else -2147483648.

(** The conversion of a non-negative [int] or [size_t] to [double]. *)
Definition to_double (n : Z) : float := of_uint63 (Uint63.of_Z n).

(** ** Energy types and the catalog *)

Inductive EnergyType : Set := CRUDE_OIL | SOLAR | NUCLEAR | NATURAL_GAS.

Definition getEnergyName (t : EnergyType) : string :=
  match t with
  | CRUDE_OIL => "Crude Oil"
  | SOLAR => "Solar"
  | NUCLEAR => "Nuclear"
  | NATURAL_GAS => "Natural Gas"
  end.

#[global] Instance EnergyType_eq_dec : EqDecision EnergyType.
Proof. solve_decision. Defined.

(** The keys of a [std::map<EnergyType, double>] in the order it is iterated:
    the order of the enumerators. *)
Definition allEnergyTypes : list EnergyType := [CRUDE_OIL; SOLAR; NUCLEAR; NATURAL_GAS].

(** ** Payment: one bill *)

Module Payment.

Record t : Set := mk { amount : float; date : Z; isPaid : bool }.

(** [Payment(double amt)]: unpaid, dated by the clock. *)
Definition new (now : Z) (amt : float) : t :=
  {| amount := amt; isPaid := false; date := now |}.

(** [difftime(time(nullptr), date) / (60*60*24)], converted to [int]. *)
Definition getDaysSince (now : Z) (p : t) : Z :=
  to_int (Z.quot (now - date p) (60 * 60 * 24)).

Definition isOverdue (now : Z) (p : t) : bool :=
  (getDaysSince now p >? 30) && negb (isPaid p).

Definition set_isPaid (b : bool) (p : t) : t :=
  {| amount := amount p; date := date p; isPaid := b |}.

End Payment.

(** ** ImportExport: one trade *)

Module ImportExport.

Record t : Set := mk
  { type : EnergyType; quantity : float; price : float; isImport : bool; date : Z }.

Definition new (now : Z) (ty : EnergyType) (q p : float) (imp : bool) : t :=
  {| type := ty; quantity := q; price := p; isImport := imp; date := now |}.

Definition getValue (r : t) : float := (quantity r * price r)%float.

End ImportExport.

(** ** Customer *)

Module Customer.

Record MaintRecord : Set := mkMaint { m_date : Z; desc : string; cost : float }.

Record t : Set := mk
  { id : Z;
    name : string;
    province : string;
    email : string;
    address : string;
    energyType : EnergyType;
    allocated : float;
    used : float;
    payments : list Payment.t;
    reminderSent : bool;
    maintenance : list MaintRecord }.

(** The constructor: [used = 0], no bills, [reminderSent = false]. *)
Definition new (id : Z) (name prov mail addr : string) (type : EnergyType)
    (alloc : float) : t :=
  {| id := id; name := name; province := prov; email := mail; address := addr;
     energyType := type; allocated := alloc; used := 0%float; payments := [];
     reminderSent := false; maintenance := [] |}.

Definition set_used (u : float) (c : t) : t :=
  {| id := id c; name := name c; province := province c; email := email c;
     address := address c; energyType := energyType c; allocated := allocated c;
     used := u; payments := payments c; reminderSent := reminderSent c;
     maintenance := maintenance c |}.

Definition set_payments (ps : list Payment.t) (c : t) : t :=
  {| id := id c; name := name c; province := province c; email := email c;
     address := address c; energyType := energyType c; allocated := allocated c;
     used := used c; payments := ps; reminderSent := reminderSent c;
     maintenance := maintenance c |}.

Definition set_reminderSent (b : bool) (c : t) : t :=
  {| id := id c; name := name c; province := province c; email := email c;
     address := address c; energyType := energyType c; allocated := allocated c;
     used := used c; payments := payments c; reminderSent := b;
     maintenance := maintenance c |}.

Definition set_maintenance (ms : list MaintRecord) (c : t) : t :=
  {| id := id c; name := name c; province := province c; email := email c;
     address := address c; energyType := energyType c; allocated := allocated c;
     used := used c; payments := payments c; reminderSent := reminderSent c;
     maintenance := ms |}.

(** [if (amt <= allocated - used) { used += amt; return true; } return false;] *)
Definition useEnergy (amt : float) (c : t) : bool * t :=
  if (amt <=? allocated c - used c)%float
  then (true, set_used (used c + amt)%float c)
  else (false, c).

(** A sequence of [useEnergy] calls, results dropped. *)
Definition useEnergyAll (amts : list float) (c : t) : t :=
  fold_left (fun c amt => snd (useEnergy amt c)) amts c.

(** [payments.push_back(Payment(used * rate)); used = 0;] *)
Definition createBill (now : Z) (rate : float) (c : t) : t :=
  set_used 0%float
    (set_payments (payments c ++ [Payment.new now (used c * rate)%float]) c).

(** [index >= 0 && index < payments.size() && amt >= payments[index].amount];
    the comparison with [size()] is unsigned, and is reached only for
    [index >= 0], where the conversion keeps the value. *)
Definition makePayment (index : Z) (amt : float) (c : t) : bool * t :=
  if (0 <=? index) && (index <? Z.of_nat (length (payments c))) then
    match payments c !! Z.to_nat index with
    | Some p =>
        if (Payment.amount p <=? amt)%float
        then (true,
              set_reminderSent false
                (set_payments
                   (<[Z.to_nat index := Payment.set_isPaid true p]> (payments c)) c))
        else (false, c)
    | None => (false, c)
    end
  else (false, c).

Definition addMaintenance (now : Z) (d : string) (k : float) (c : t) : t :=
  set_maintenance (maintenance c ++ [mkMaint now d k]) c.

(** [for (auto& p : payments) if (!p.isPaid) total += p.amount;] *)
Definition getTotalOwed (c : t) : float :=
  fold_left
    (fun total p => if negb (Payment.isPaid p) then (total + Payment.amount p)%float else total)
    (payments c) 0%float.

(** [for (auto& p : payments) if (p.isOverdue()) return true; return false;] *)
Fixpoint anyOverdue (now : Z) (ps : list Payment.t) : bool :=
  match ps with
  | [] => false
  | p :: ps' => if Payment.isOverdue now p then true else anyOverdue now ps'
  end.

Definition hasOverdue (now : Z) (c : t) : bool := anyOverdue now (payments c).

(** [energyprovider.cxx] has no getter for the allocation; it has
    [getEnergyLeft() { return energyAllocated - energyUsed; }] and
    [getCurrentUsage() { return energyUsed; }]. *)
Definition getEnergyLeft (c : t) : float := (allocated c - used c)%float.
Definition getCurrentUsage (c : t) : float := used c.

Section Reminder.

(** Library code the reminder text goes through: [strftime] with
    ["%Y-%m-%d"] on [localtime(&date)], and the stream's rendering of a
    [double] under [fixed << setprecision(2)]. *)
Variable formatDate : Z -> string.
Variable fixed2 : float -> string.

Definition reminderHead (c : t) : string :=
  "To: " +:+ email c +:+ nl
  +:+ "Subject: Your energy payment is overdue" +:+ nl +:+ nl
  +:+ "Hi " +:+ name c +:+ "," +:+ nl +:+ nl
  +:+ "Just a reminder that you have unpaid bills that are now overdue:" +:+ nl +:+ nl.

Definition reminderTail : string :=
  nl +:+ "Please pay ASAP to avoid service interruption." +:+ nl +:+ nl
  +:+ "Thanks," +:+ nl +:+ "Customer Service Team".

(** The line written for one overdue bill. *)
Definition reminderLine (now : Z) (p : Payment.t) : string :=
  "Bill from " +:+ formatDate (Payment.date p)
  +:+ " - Amount: $" +:+ fixed2 (Payment.amount p)
  +:+ " - " +:+ to_string (Payment.getDaysSince now p - 30) +:+ " days overdue" +:+ nl.

(** The loop over [payments], appending to the stream [text]. *)
Definition reminderLoop (now : Z) (ps : list Payment.t) (text : string) : string :=
  fold_left
    (fun text p => if Payment.isOverdue now p then text +:+ reminderLine now p else text)
    ps text.

Definition sendReminder (now : Z) (c : t) : string * t :=
  if hasOverdue now c && negb (reminderSent c) then
    let c' := set_reminderSent true c in
    (reminderLoop now (payments c') (reminderHead c') +:+ reminderTail, c')
  else (EmptyString, c).

End Reminder.

End Customer.

(** ** EnergySystem: the directory *)

Module EnergySystem.

Record t : Type := mk
  { customers : list Customer.t;
    provinces : gmap string (list Z);
    rates : EnergyType -> float;
    trades : list ImportExport.t }.

(** The constructor: no customers, no trades, the four catalog prices. *)
Definition new : t :=
  {| customers := [];
     provinces := ∅;
     rates := fun ty =>
       match ty with
       | CRUDE_OIL => 1.25%float
       | SOLAR => 0.18%float
       | NUCLEAR => 0.22%float
       | NATURAL_GAS => 0.85%float
       end;
     trades := [] |}.

Definition set_customers (cs : list Customer.t) (sys : t) : t :=
  {| customers := cs; provinces := provinces sys; rates := rates sys;
     trades := trades sys |}.

(** [customers.push_back(c);
     provinces[c.getProvince()].push_back(customers.size() - 1);]
    [operator[]] starts a missing bucket empty. *)
Definition addCustomer (c : Customer.t) (sys : t) : t :=
  let cs := customers sys ++ [c] in
  let bucket := default [] (provinces sys !! Customer.province c) in
  {| customers := cs;
     provinces :=
       <[Customer.province c := bucket ++ [Z.of_nat (length cs) - 1]]> (provinces sys);
     rates := rates sys;
     trades := trades sys |}.

(** A directory filled by [addCustomer] alone, first customer first. *)
Definition populate (cs : list Customer.t) : t :=
  fold_left (fun sys c => addCustomer c sys) cs new.

(** [for (auto& c : customers)
       if (c.getUsed() > 0) c.createBill(rates[c.getEnergyType()]);] *)
Definition billOne (now : Z) (rates : EnergyType -> float) (c : Customer.t) : Customer.t :=
  if (0 <? Customer.used c)%float
  then Customer.createBill now (rates (Customer.energyType c)) c
  else c.

Definition doBilling (now : Z) (sys : t) : t :=
  set_customers (map (billOne now (rates sys)) (customers sys)) sys.

(** [sendReminders]: every customer is asked for a reminder; a line is
    printed for each text that is not empty. *)
Definition remindOne (formatDate : Z -> string) (fixed2 : float -> string) (now : Z)
    (c : Customer.t) : list string * Customer.t :=
  let r := Customer.sendReminder formatDate fixed2 now c in
  (if empty (fst r) then []
   else ["Sent reminder to " +:+ Customer.name c +:+ " (ID: "
         +:+ to_string (Customer.id c) +:+ ")" +:+ nl],
   snd r).

Definition sendReminders (formatDate : Z -> string) (fixed2 : float -> string)
    (now : Z) (sys : t) : list string * t :=
  let rs := map (remindOne formatDate fixed2 now) (customers sys) in
  (concat (map fst rs), set_customers (map snd rs) sys).

(** The directories the program can hold: built by the constructor and
    changed by [addCustomer], [doBilling] and [sendReminders]. *)
Inductive reachable : t -> Prop :=
  | reach_new : reachable new
  | reach_addCustomer c sys : reachable sys -> reachable (addCustomer c sys)
  | reach_doBilling now sys : reachable sys -> reachable (doBilling now sys)
  | reach_sendReminders formatDate fixed2 now sys :
      reachable sys -> reachable (snd (sendReminders formatDate fixed2 now sys)).

(** The search loop: [i] is the position of the head of [cs] in
    [customers], [results] the pointers pushed so far; a pointer
    [&customers[i]] is modelled by the position [i]. *)
Fixpoint findLoop (query prov : string) (cs : list Customer.t) (i : nat)
    (results : list nat) : list nat :=
  match cs with
  | [] => results
  | c :: cs' =>
      if negb (empty prov) && negb (String.eqb (Customer.province c) prov)
      then findLoop query prov cs' (S i) results
      else if found (to_string (Customer.id c)) query
              || found (Customer.name c) query
              || found (Customer.email c) query
      then findLoop query prov cs' (S i) (results ++ [i])
      else findLoop query prov cs' (S i) results
  end.

Definition findCustomers (query prov : string) (sys : t) : list nat :=
  findLoop query prov (customers sys) 0%nat [].

(** [for (auto& c : customers) if (c.hasOverdue()) overdueCount++;] *)
Definition overdueCount (now : Z) (cs : list Customer.t) : Z :=
  fold_left (fun n c => if Customer.hasOverdue now c then n + 1 else n) cs 0.

(** [createMonthlyReport]: [overdueCount * 100.0 / customers.size()] *)
Definition reportOverduePercent (now : Z) (sys : t) : float :=
  (to_double (overdueCount now (customers sys)) * 100
   / to_double (Z.of_nat (length (customers sys))))%float.

(** [showStats]:
    [static_cast<double>(overdueCount) / customers.size() * 100.0] *)
Definition statsOverduePercent (now : Z) (sys : t) : float :=
  (to_double (overdueCount now (customers sys))
   / to_double (Z.of_nat (length (customers sys))) * 100)%float.

(** The sums [createMonthlyReport] accumulates over one province bucket. *)
Record ProvinceTotals : Set := mkTotals
  { p_allocated : float; p_used : float; p_unpaid : float; p_overdue : Z }.

(** The loop over a bucket [ids]; [customers[idx]] out of range is undefined
    in C++, [None] here. *)
Fixpoint provinceLoop (now : Z) (cs : list Customer.t) (ids : list Z)
    (acc : ProvinceTotals) : option ProvinceTotals :=
  match ids with
  | [] => Some acc
  | idx :: ids' =>
      if (0 <=? idx) && (idx <? Z.of_nat (length cs)) then
        match cs !! Z.to_nat idx with
        | Some c =>
            provinceLoop now cs ids'
              {| p_allocated := (p_allocated acc + Customer.allocated c)%float;
                 p_used := (p_used acc + Customer.used c)%float;
                 p_unpaid := (p_unpaid acc + Customer.getTotalOwed c)%float;
                 p_overdue :=
                   if Customer.hasOverdue now c then p_overdue acc + 1 else p_overdue acc |}
        | None => None
        end
      else None
  end.

(** What the report prints for one province. *)
Record ProvinceBlock : Set := mkBlock
  { b_customers : nat;
    b_totals : ProvinceTotals;
    b_usagePercent : float;
    b_overduePercent : float }.

(** [(used/allocated*100)] and [(overdue*100.0/ids.size())] *)
Definition provinceBlock (now : Z) (cs : list Customer.t) (ids : list Z)
    : option ProvinceBlock :=
  match provinceLoop now cs ids (mkTotals 0 0 0 0) with
  | Some tot =>
      Some {| b_customers := length ids;
              b_totals := tot;
              b_usagePercent := (p_used tot / p_allocated tot * 100)%float;
              b_overduePercent :=
                (to_double (p_overdue tot) * 100 / to_double (Z.of_nat (length ids)))%float |}
  | None => None
  end.

(** The province breakdown of the report: one block per bucket of the
    index. *)
Definition provinceBreakdown (now : Z) (sys : t) : gmap string (option ProvinceBlock) :=
  provinceBlock now (customers sys) <$> provinces sys.

(** [energyprovider.cxx], [sendReminders]: the same loop with a test of
    [hasOverdueBills()] before [sendReminder()] is called. *)
Definition remindOneOlder (formatDate : Z -> string) (fixed2 : float -> string) (now : Z)
    (c : Customer.t) : list string * Customer.t :=
  if Customer.hasOverdue now c then remindOne formatDate fixed2 now c else ([], c).

Definition sendRemindersOlder (formatDate : Z -> string) (fixed2 : float -> string)
    (now : Z) (sys : t) : list string * t :=
  let rs := map (remindOneOlder formatDate fixed2 now) (customers sys) in
  (concat (map fst rs), set_customers (map snd rs) sys).

(** [energyprovider.cxx], [getProvinceStats]: the entry ["allocated"] of one
    province, which starts at 0 and receives
    [customer.getEnergyLeft() + customer.getCurrentUsage()] for each position
    of the bucket. *)
Fixpoint allocatedOlder (cs : list Customer.t) (ids : list Z) (acc : float)
    : option float :=
  match ids with
  | [] => Some acc
  | idx :: ids' =>
      if (0 <=? idx) && (idx <? Z.of_nat (length cs)) then
        match cs !! Z.to_nat idx with
        | Some c =>
            allocatedOlder cs ids'
              (acc + (Customer.getEnergyLeft c + Customer.getCurrentUsage c))%float
        | None => None
        end
      else None
  end.

(** [getOverdueCustomers]: the loop, pointers as positions. *)
Fixpoint overdueLoop (now : Z) (cs : list Customer.t) (i : nat) (results : list nat)
    : list nat :=
  match cs with
  | [] => results
  | c :: cs' =>
      if Customer.hasOverdue now c
      then overdueLoop now cs' (S i) (results ++ [i])
      else overdueLoop now cs' (S i) results
  end.

Definition getOverdueCustomers (now : Z) (sys : t) : list nat :=
  overdueLoop now (customers sys) 0%nat [].

(** [createMonthlyReport]: [totalUnpaid += c.getTotalOwed()] over all
    customers. *)
Definition totalUnpaid (cs : list Customer.t) : float :=
  fold_left (fun total c => (total + Customer.getTotalOwed c)%float) cs 0%float.

(** [showStats]: the count of customers with an overdue bill and the sum of
    what they owe. *)
Definition statsOverdue (now : Z) (cs : list Customer.t) : Z * float :=
  fold_left
    (fun acc c =>
       if Customer.hasOverdue now c
       then (fst acc + 1, (snd acc + Customer.getTotalOwed c)%float)
       else acc)
    cs (0, 0%float).

(** [energyprovider.cxx], [addImportExport]. *)
Definition addImportExport (r : ImportExport.t) (sys : t) : t :=
  {| customers := customers sys; provinces := provinces sys; rates := rates sys;
     trades := trades sys ++ [r] |}.

(** A [std::map<EnergyType, double>]: the value of each key that is present.
    [m[ty] += v] starts a missing key at 0. *)
Definition bump (m : EnergyType -> option float) (ty : EnergyType) (v : float)
    : EnergyType -> option float :=
  fun k => if decide (k = ty) then Some (default 0%float (m k) + v)%float else m k.

(** The entries of such a map as the report lists them. *)
Definition entries (m : EnergyType -> option float) : list (EnergyType * float) :=
  omap (fun k => match m k with Some v => Some (k, v) | None => None end) allEnergyTypes.

(** The import/export summary of [createMonthlyReport]. *)
Record TradeSummary : Type := mkSummary
  { imports : float;
    exports : float;
    importsByType : EnergyType -> option float;
    exportsByType : EnergyType -> option float }.

Definition tradeStep (s : TradeSummary) (r : ImportExport.t) : TradeSummary :=
  if ImportExport.isImport r then
    {| imports := (imports s + ImportExport.getValue r)%float;
       exports := exports s;
       importsByType :=
         bump (importsByType s) (ImportExport.type r) (ImportExport.getValue r);
       exportsByType := exportsByType s |}
  else
    {| imports := imports s;
       exports := (exports s + ImportExport.getValue r)%float;
       importsByType := importsByType s;
       exportsByType :=
         bump (exportsByType s) (ImportExport.type r) (ImportExport.getValue r) |}.

Definition reportTrades (ts : list ImportExport.t) : TradeSummary :=
  fold_left tradeStep ts (mkSummary 0 0 (fun _ => None) (fun _ => None)).

(** [(imports - exports)] *)
Definition netBalance (s : TradeSummary) : float := (imports s - exports s)%float.

(** The import and export totals of [showStats]. *)
Definition statsTrades (ts : list ImportExport.t) : float * float :=
  fold_left
    (fun acc r =>
       if ImportExport.isImport r
       then ((fst acc + ImportExport.getValue r)%float, snd acc)
       else (fst acc, (snd acc + ImportExport.getValue r)%float))
    ts (0%float, 0%float).

(** *** The test data

    [createTestData] draws from the engine [rng] through
    [uniform_int_distribution<>(a, b)] and [uniform_real_distribution<>(a, b)].
    The engine's state is threaded through the draws in the order the code
    makes them; the engine and the two distributions are library code, taken
    as given.  The clock is read once for the whole call. *)

Definition provs : list string :=
  ["Ontario"; "Quebec"; "Alberta"; "British Columbia"; "Manitoba"].
Definition fnames : list string := ["John"; "Jane"; "Mike"; "Emily"; "Dave"].
Definition lnames : list string := ["Smith"; "Johnson"; "Williams"; "Jones"; "Brown"].
Definition streets : list string :=
  ["Howard Ave"; "Dougall Ave"; "Walker Rd"; "Ouellette Ave"; "Lauzon Rd"].

Section TestData.

Variable Rng : Type.
Variable uniform_int : Z -> Z -> Rng -> Z * Rng.
Variable uniform_real : float -> float -> Rng -> float * Rng.

Definition randNum (min max : float) (g : Rng) : float * Rng := uniform_real min max g.

(** [types[uniform_int_distribution<>(0, 3)(rng)]]; outside the bounds of
    the draw the model gives the first type. *)
Definition randType (g : Rng) : EnergyType * Rng :=
  let '(i, g) := uniform_int 0 3 g in
  (if 0 <=? i
   then default CRUDE_OIL ([CRUDE_OIL; SOLAR; NUCLEAR; NATURAL_GAS] !! Z.to_nat i)
   else CRUDE_OIL,
   g).

(** The body of the inner loop up to [addCustomer]: the customer of slot [i]
    of province [prov], with the id [id]. *)
Definition testCustomer (now : Z) (rates : EnergyType -> float) (prov : string)
    (i id : Z) (g : Rng) : Customer.t * Rng :=
  let '(fi, g) := uniform_int 0 (Z.of_nat (length fnames) - 1) g in
  let first := at_index fnames fi in
  let '(li, g) := uniform_int 0 (Z.of_nat (length lnames) - 1) g in
  let last := at_index lnames li in
  let name := first +:+ " " +:+ last in
  let email :=
    transform tolower (String.substring 0 1 first +:+ last +:+ "@email.com") in
  let '(si, g) := uniform_int 0 (Z.of_nat (length streets) - 1) g in
  let street := at_index streets si in
  let '(num, g) := uniform_int 100 9999 g in
  let address := to_string num +:+ " " +:+ street +:+ ", " +:+ prov in
  let '(type, g) := randType g in
  let '(alloc, g) := randNum 250 1000 g in
  let cust := Customer.new id name prov email address type alloc in
  let '(amt, g) := randNum 50 (alloc * 0.8) g in
  let cust := snd (Customer.useEnergy amt cust) in
  let cust :=
    if Z.rem i 3 =? 0 then
      let cust := Customer.createBill now (rates type) cust in
      if negb (Z.rem i 9 =? 0)
      then snd (Customer.makePayment 0 (Customer.getTotalOwed cust) cust)
      else cust
    else cust in
  if Z.rem i 15 =? 0 then
    let '(k, g) := randNum 50 200 g in
    (Customer.addMaintenance now "Equipment check" k cust, g)
  else (cust, g).

(** One turn of the inner loop; [id++] hands on the next id. *)
Definition testStep (now : Z) (prov : string) (st : t * Z * Rng) (i : Z)
    : t * Z * Rng :=
  let '(sys, id, g) := st in
  let '(cust, g) := testCustomer now (rates sys) prov i id g in
  (addCustomer cust sys, id + 1, g).

(** [for (int i = 0; i < 100; i++)] *)
Definition testProvince (now : Z) (st : t * Z * Rng) (prov : string) : t * Z * Rng :=
  fold_left (testStep now prov) (seqZ 0 100) st.

(** One turn of the loop over the trades. *)
Definition testTrade (now : Z) (st : t * Rng) (i : Z) : t * Rng :=
  let '(sys, g) := st in
  let '(type, g) := randType g in
  let '(qty, g) := randNum 1000 10000 g in
  let '(price, g) := randNum (rates sys type * 0.7) (rates sys type * 1.3) g in
  (addImportExport (ImportExport.new now type qty price (negb (Z.rem i 3 =? 0))) sys, g).

Definition createTestData (now : Z) (sys : t) (g : Rng) : t * Rng :=
  let '(sys, _, g) := fold_left (testProvince now) provs (sys, 1001, g) in
  fold_left (testTrade now) (seqZ 0 30) (sys, g).

End TestData.

End EnergySystem.

(** ** Vocabulary of the statements *)

(** [c'] differs from [c] at most in its usage, its bills and its reminder
    latch. *)
Definition same_identity (c c' : Customer.t) : Prop :=
  Customer.id c' = Customer.id c /\ Customer.name c' = Customer.name c /\
  Customer.province c' = Customer.province c /\ Customer.email c' = Customer.email c /\
  Customer.address c' = Customer.address c /\
  Customer.energyType c' = Customer.energyType c /\
  Customer.allocated c' = Customer.allocated c /\
  Customer.maintenance c' = Customer.maintenance c.

(** What [findCustomers] is specified to select: the province filter is
    empty or is the customer's province, and the query occurs in the decimal
    rendering of the id, in the name or in the email. *)
Definition matches (query prov : string) (c : Customer.t) : Prop :=
  (prov = EmptyString \/ Customer.province c = prov) /\
  (substring_of query (to_string (Customer.id c)) \/
   substring_of query (Customer.name c) \/
   substring_of query (Customer.email c)).

(** The test one turn of the search loop makes before it pushes. *)
Definition selected (query prov : string) (c : Customer.t) : bool :=
  if negb (empty prov) && negb (String.eqb (Customer.province c) prov) then false
  else found (to_string (Customer.id c)) query
       || found (Customer.name c) query
       || found (Customer.email c) query.

(** [c'] has the fields the constructor of [c] was given. *)
Definition same_person (c c' : Customer.t) : Prop :=
  Customer.id c' = Customer.id c /\ Customer.name c' = Customer.name c /\
  Customer.province c' = Customer.province c /\ Customer.email c' = Customer.email c /\
  Customer.address c' = Customer.address c /\
  Customer.energyType c' = Customer.energyType c /\
  Customer.allocated c' = Customer.allocated c.

(** One call of a public method of [Customer] that can change the object. *)
Inductive mutation : Customer.t -> Customer.t -> Prop :=
  | by_useEnergy amt c : mutation c (snd (Customer.useEnergy amt c))
  | by_createBill now rate c : mutation c (Customer.createBill now rate c)
  | by_makePayment index amt c : mutation c (snd (Customer.makePayment index amt c))
  | by_addMaintenance now d k c : mutation c (Customer.addMaintenance now d k c)
  | by_sendReminder formatDate fixed2 now c :
      mutation c (snd (Customer.sendReminder formatDate fixed2 now c)).

(** The positions of the customers of province [prov], in order, as the
    index stores them. *)
Definition bucketOf (prov : string) (cs : list Customer.t) : list Z :=
  map (fun ic => Z.of_nat (fst ic))
    (List.filter (fun ic => String.eqb (Customer.province (snd ic)) prov)
       (combine (seq 0 (length cs)) cs)).

(** The slots of the loops of [createTestData], in the order the loops
    visit them: the province, the inner counter [i] and the id handed out. *)
Fixpoint slotsOf (prov : string) (counters : list Z) (id : Z) : list (string * Z * Z) :=
  match counters with
  | [] => []
  | i :: rest => (prov, i, id) :: slotsOf prov rest (id + 1)
  end.

Fixpoint allSlots (ps : list string) (id : Z) : list (string * Z * Z) :=
  match ps with
  | [] => []
  | p :: ps' => slotsOf p (seqZ 0 100) id ++ allSlots ps' (id + 100)
  end.

(** What the test data holds for the slot [(prov, i, id)], whatever is
    drawn. *)
Definition test_customer (now : Z) (slot : string * Z * Z) (c : Customer.t) : Prop :=
  let '(prov, i, id) := slot in
  Customer.id c = id /\ Customer.province c = prov /\
  (exists local, Customer.email c = local +:+ "@email.com") /\
  Customer.reminderSent c = false /\
  (exists amt,
     Customer.payments c
     = if Z.rem i 3 =? 0
       then [ {| Payment.amount := amt; Payment.date := now;
                 Payment.isPaid := negb (Z.rem i 9 =? 0) && negb (is_nan amt) |} ]
       else []) /\
  length (Customer.maintenance c) = (if Z.rem i 15 =? 0 then 1%nat else 0%nat).

(** * Facts *)

(** ** Order and zero in binary64

    What the proofs below need of the machine numbers, read off the
    specification of the primitive operations ([SpecFloat]). *)

Module Binary64.

Local Open Scope float_scope.

Lemma SFcompare_antisym (x y : spec_float) :
  SFcompare y x = option_map CompOpp (SFcompare x y).
Proof.
  destruct x as [sx|sx| |sx mx ex], y as [sy|sy| |sy my ey]; simpl;
    try reflexivity; try (destruct sx; reflexivity); try (destruct sy; reflexivity);
    try (destruct sx, sy; reflexivity).
  destruct sx, sy; simpl; try reflexivity;
    rewrite (Z.compare_antisym ex ey); destruct (ex ?= ey)%Z; simpl; try reflexivity;
    rewrite (Pos.compare_cont_antisym mx my Eq); reflexivity.
Qed.

(** [x < y] excludes [y <= x]. *)
Lemma ltb_leb_false (x y : float) : (x <? y) = true -> (y <=? x) = false.
Proof.
  rewrite FloatAxioms.ltb_spec, FloatAxioms.leb_spec. unfold SFltb, SFleb.
  rewrite (SFcompare_antisym (Prim2SF x) (Prim2SF y)).
  destruct (SFcompare (Prim2SF x) (Prim2SF y)) as [[]|]; simpl; congruence.
Qed.

(** [x <= y] is [x < y] or [x == y]. *)
Lemma leb_ltb_eqb (x y : float) :
  (x <=? y) = true -> (x <? y) = true \/ (x =? y) = true.
Proof.
  rewrite FloatAxioms.leb_spec, FloatAxioms.ltb_spec, FloatAxioms.eqb_spec.
  unfold SFltb, SFleb, SFeqb.
  destruct (SFcompare (Prim2SF x) (Prim2SF y)) as [[]|]; auto.
Qed.

(** [x == y] excludes [y < x]. *)
Lemma eqb_ltb_false (x y : float) : (x =? y) = true -> (y <? x) = false.
Proof.
  rewrite FloatAxioms.eqb_spec, FloatAxioms.ltb_spec. unfold SFeqb, SFltb.
  rewrite (SFcompare_antisym (Prim2SF x) (Prim2SF y)).
  destruct (SFcompare (Prim2SF x) (Prim2SF y)) as [[]|]; simpl; congruence.
Qed.

Lemma Prim2SF_zero : Prim2SF 0 = S754_zero false.
Proof. reflexivity. Qed.

Lemma Prim2SF_infinity : Prim2SF infinity = S754_infinity false.
Proof. reflexivity. Qed.

(** A negative number is below every non-negative one. *)
Lemma ltb_zero_leb (x r : float) :
  (x <? 0) = true -> (0 <=? r) = true -> (x <=? r) = true.
Proof.
  rewrite FloatAxioms.ltb_spec, !FloatAxioms.leb_spec, Prim2SF_zero.
  unfold SFltb, SFleb.
  destruct (Prim2SF x) as [sx|sx| |sx mx ex], (Prim2SF r) as [sr|sr| |sr mr er]; simpl;
    try discriminate; try (destruct sx; simpl; congruence);
    try (destruct sr; simpl; congruence);
    destruct sx, sr; simpl; congruence.
Qed.

(** The numbers equal to zero are the two zeros. *)
Lemma eqb_zero_inv (x : float) :
  (x =? 0) = true -> exists s, Prim2SF x = S754_zero s.
Proof.
  rewrite FloatAxioms.eqb_spec, Prim2SF_zero. unfold SFeqb.
  destruct (Prim2SF x) as [sx|sx| |sx mx ex]; simpl; eauto;
    try discriminate; destruct sx; discriminate.
Qed.

(** A finite number is a zero or has a mantissa and an exponent. *)
Lemma is_finite_inv (x : float) :
  is_finite x = true ->
  (exists s, Prim2SF x = S754_zero s) \/ (exists s m e, Prim2SF x = S754_finite s m e).
Proof.
  unfold is_finite, is_nan, is_infinity.
  rewrite !FloatAxioms.eqb_spec, abs_spec, Prim2SF_infinity. unfold SFeqb.
  destruct (Prim2SF x) as [sx|sx| |sx mx ex]; simpl; eauto;
    [rewrite orb_true_r|]; discriminate.
Qed.

(** Zero times a finite number is zero. *)
Lemma mul_zero_finite (u r : float) :
  (u =? 0) = true -> is_finite r = true -> (u * r =? 0) = true.
Proof.
  intros Hu Hr. destruct (eqb_zero_inv u Hu) as [su Eu].
  rewrite FloatAxioms.eqb_spec, mul_spec, Eu, Prim2SF_zero. unfold SF64mul.
  destruct (is_finite_inv r Hr) as [[sr Er]|(sr & mr & er & Er)]; rewrite Er; reflexivity.
Qed.

(** Division by a zero has no finite result, and neither has the result
    times 100; zero by zero is NaN. *)
Lemma div_by_zero_times_100 (x z : float) :
  (z =? 0) = true ->
  is_finite (x / z * 100) = false /\
  ((x =? 0) = true -> x / z * 100 = nan /\ x / z = nan).
Proof.
  intros Hz. destruct (eqb_zero_inv z Hz) as [sz Ez].
  assert (H100 : Prim2SF 100 = S754_finite false 7036874417766400 (-46)) by reflexivity.
  assert (Hnan : forall y, Prim2SF y = S754_nan -> y = nan)
    by (intros y Hy; apply Prim2SF_inj; rewrite Hy; reflexivity).
  assert (Hq : Prim2SF (x / z) = S754_nan \/ exists s, Prim2SF (x / z) = S754_infinity s).
  { rewrite div_spec, Ez. unfold SF64div.
    destruct (Prim2SF x) as [sx|sx| |sx mx ex]; simpl; eauto. }
  split.
  - unfold is_finite, is_nan, is_infinity.
    rewrite !FloatAxioms.eqb_spec, abs_spec, mul_spec, H100, Prim2SF_infinity.
    destruct Hq as [->|[[] ->]]; reflexivity.
  - intros Hx. destruct (eqb_zero_inv x Hx) as [sx Ex].
    assert (Hd : Prim2SF (x / z) = S754_nan) by (rewrite div_spec, Ex, Ez; reflexivity).
    split; [|apply Hnan, Hd].
    apply Hnan. rewrite mul_spec, Hd. reflexivity.
Qed.

End Binary64.

(** ** Occurrences in strings *)

Lemma append_String (a : ascii) (s t : string) :
  String a s +:+ t = String a (s +:+ t).
Proof. reflexivity. Qed.

Lemma append_Empty (t : string) : EmptyString +:+ t = t.
Proof. reflexivity. Qed.

Lemma prefix_app (q s : string) :
  String.prefix q s = true <-> exists post, s = q +:+ post.
Proof.
  revert s. induction q as [|a q IH]; intros s; simpl.
  - destruct s; split; eauto.
  - destruct s as [|b s]; simpl.
    + split; [discriminate | intros [post H]; discriminate].
    + destruct (ascii_dec a b) as [->|Hab].
      * rewrite IH. split; intros [post H]; exists post;
          rewrite append_String in *; congruence.
      * split; [discriminate | intros [post H]; rewrite append_String in H; congruence].
Qed.

Lemma find_String (a : ascii) (s q : string) :
  find (String a s) q =
  if String.prefix q (String a s) then Some 0%nat else option_map S (find s q).
Proof. reflexivity. Qed.

Lemma find_substring (s q : string) :
  found s q = true <-> substring_of q s.
Proof.
  unfold found, substring_of. split.
  - induction s as [|a s IH].
    + destruct q; [|discriminate].
      intros _. exists EmptyString, EmptyString. reflexivity.
    + rewrite find_String. destruct (String.prefix q (String a s)) eqn:Hp.
      * intros _. apply prefix_app in Hp as [post Hp]. exists EmptyString, post. exact Hp.
      * destruct (find s q); [|discriminate]. intros _.
        destruct IH as (pre & post & ->); [reflexivity|].
        exists (String a pre), post. reflexivity.
  - intros (pre & post & ->). induction pre as [|a pre IH].
    + rewrite append_Empty.
      assert (Hp : String.prefix q (q +:+ post) = true) by (apply prefix_app; eauto).
      destruct (q +:+ post) as [|b r].
      * destruct q; [reflexivity | discriminate].
      * rewrite find_String, Hp. reflexivity.
    + rewrite append_String, find_String.
      destruct (String.prefix q (String a (pre +:+ q +:+ post))); [reflexivity|].
      destruct (find (pre +:+ q +:+ post) q); [reflexivity | discriminate].
Qed.

(** The empty string occurs everywhere. *)
Lemma found_empty (s : string) : found s EmptyString = true.
Proof. unfold found. destruct s; reflexivity. Qed.

Lemma has_char_app (a : ascii) (s1 s2 : string) :
  has_char a (s1 +:+ s2) = has_char a s1 || has_char a s2.
Proof.
  induction s1 as [|b s1 IH]; [reflexivity|].
  rewrite append_String. simpl. rewrite IH. apply orb_assoc.
Qed.

(** A decimal rendering holds digits and at most a sign, so no letter. *)
Lemma to_string_no_S (n : Z) : has_char "S" (to_string n) = false.
Proof.
  unfold to_string.
  assert (Hu : forall d, has_char "S" (NilEmpty.string_of_uint d) = false)
    by (induction d; simpl; auto).
  assert (Hz : forall d, has_char "S" (NilZero.string_of_uint d) = false)
    by (destruct d; try reflexivity; apply (Hu (_ _))).
  destruct (Z.to_int n); simpl; auto.
Qed.

Lemma Smith_not_in_id (n : Z) : found (to_string n) "Smith" = false.
Proof.
  destruct (found (to_string n) "Smith") eqn:Hf; [|reflexivity].
  apply find_substring in Hf as (pre & post & Hf).
  pose proof (to_string_no_S n) as Hn. rewrite Hf, !has_char_app in Hn.
  simpl in Hn. rewrite orb_true_r in Hn. discriminate.
Qed.

(** ** Customer::useEnergy *)

(** The contract of one call: a request above the remaining allocation is
    refused and changes nothing; a request within it is granted and [used]
    becomes the double sum [used + amt]. *)
Lemma useEnergy_call (amt : float) (c : Customer.t) :
  ((Customer.allocated c - Customer.used c <? amt)%float = true ->
     Customer.useEnergy amt c = (false, c)) /\
  ((amt <=? Customer.allocated c - Customer.used c)%float = true ->
     Customer.useEnergy amt c = (true, Customer.set_used (Customer.used c + amt)%float c)) /\
  (fst (Customer.useEnergy amt c) = false -> snd (Customer.useEnergy amt c) = c).
Proof.
  unfold Customer.useEnergy. repeat split.
  - intros H. apply Binary64.ltb_leb_false in H. rewrite H. reflexivity.
  - intros ->. reflexivity.
  - destruct (_ <=? _)%float; [discriminate | reflexivity].
Qed.

(** C1, at the input where the code leaves the allocation invariant: a
    customer allocated 250.1 units uses 52.8 and then 197.3.  Both calls are
    granted.  In the second, the guard compares 197.3 with the difference
    250.1 - 52.8, which in binary64 is the very number 197.3, and passes;
    the sum 52.8 + 197.3 is in binary64 250.10000000000002, so [used] ends
    above [allocated]. *)
Theorem useEnergy_rounded_sum_exceeds_allocation :
  let c0 := Customer.new 1001 "Jane Smith" "Ontario" "jsmith@email.com"
              "12 Walker Rd, Ontario" SOLAR 250.1 in
  let r1 := Customer.useEnergy 52.8 c0 in
  let r2 := Customer.useEnergy 197.3 (snd r1) in
  fst r1 = true /\ Customer.used (snd r1) = 52.8%float /\
  (Customer.allocated (snd r1) - Customer.used (snd r1))%float = 197.3%float /\
  fst r2 = true /\
  Customer.used (snd r2) = 250.10000000000002%float /\
  Customer.allocated (snd r2) = 250.1%float /\
  (Customer.allocated (snd r2) <? Customer.used (snd r2))%float = true /\
  (Customer.used (snd r2) <=? Customer.allocated (snd r2))%float = false /\
  Customer.useEnergyAll [52.8; 197.3]%float c0 = snd r2.
Proof. vm_compute. repeat split. Qed.

(** What one call of [useEnergy] does, for every amount and customer: it
    returns [true] exactly when [amt <= allocated - used]; an amount above
    the remaining allocation is refused; a refusal changes nothing; a grant
    sets [used] to the double sum [used + amt] and changes nothing else. *)
Theorem useEnergy_contract (amt : float) (c : Customer.t) :
  let ok := fst (Customer.useEnergy amt c) in
  let c' := snd (Customer.useEnergy amt c) in
  (ok = true <-> (amt <=? Customer.allocated c - Customer.used c)%float = true) /\
  ((Customer.allocated c - Customer.used c <? amt)%float = true -> ok = false) /\
  (ok = false -> c' = c) /\
  (ok = true ->
     Customer.used c' = (Customer.used c + amt)%float /\
     Customer.payments c' = Customer.payments c /\
     Customer.reminderSent c' = Customer.reminderSent c /\
     same_identity c c').
Proof.
  simpl. destruct (useEnergy_call amt c) as (Habove & _ & _).
  unfold Customer.useEnergy in *.
  destruct (amt <=? Customer.allocated c - Customer.used c)%float eqn:Hle; simpl.
  - split; [tauto|]. split.
    + intros H. specialize (Habove H). discriminate.
    + split; [discriminate|]. intros _. unfold same_identity. simpl. tauto.
  - split; [split; discriminate|]. split; [reflexivity|].
    split; [reflexivity | discriminate].
Qed.

(** The scenario of the specification: with an allocation of 500, a usage of
    600 is refused and leaves [used] at 0, a usage of 300 is granted, and
    billing at 0.18 gives one unpaid bill of 54 and resets [used] to 0. *)
Theorem scenario_usage_then_bill :
  let c0 := Customer.new 1001 "Jane Smith" "Ontario" "jsmith@email.com"
              "12 Walker Rd, Ontario" SOLAR 500 in
  let c1 := snd (Customer.useEnergy 600 c0) in
  let c2 := snd (Customer.useEnergy 300 c1) in
  let c3 := Customer.createBill 0 0.18 c2 in
  fst (Customer.useEnergy 600 c0) = false /\ Customer.used c1 = 0%float /\
  fst (Customer.useEnergy 300 c1) = true /\ Customer.used c2 = 300%float /\
  Customer.payments c3
    = [ {| Payment.amount := 54; Payment.date := 0; Payment.isPaid := false |} ] /\
  Customer.used c3 = 0%float.
Proof. vm_compute. repeat split. Qed.

(** ** Customer::makePayment *)

(** The reading of [makePayment] by cases. *)
Lemma makePayment_cases (index : Z) (amt : float) (c : Customer.t) :
  (exists p,
      0 <= index < Z.of_nat (length (Customer.payments c)) /\
      Customer.payments c !! Z.to_nat index = Some p /\
      (Payment.amount p <=? amt)%float = true /\
      Customer.makePayment index amt c =
        (true,
         Customer.set_reminderSent false
           (Customer.set_payments
              (<[Z.to_nat index := Payment.set_isPaid true p]> (Customer.payments c)) c)))
  \/ (Customer.makePayment index amt c = (false, c) /\
      ~ (0 <= index < Z.of_nat (length (Customer.payments c)) /\
         exists p, Customer.payments c !! Z.to_nat index = Some p /\
                   (Payment.amount p <=? amt)%float = true)).
Proof.
  unfold Customer.makePayment.
  destruct (0 <=? index) eqn:H0; simpl.
  2:{ right. split; [reflexivity|]. intros [[? ?] _]. lia. }
  destruct (index <? Z.of_nat (length (Customer.payments c))) eqn:H1.
  2:{ right. split; [reflexivity|]. intros [[? ?] _]. lia. }
  destruct (Customer.payments c !! Z.to_nat index) as [p|] eqn:Hp.
  2:{ right. split; [reflexivity|]. intros [_ (p & Hp' & _)]. congruence. }
  destruct (Payment.amount p <=? amt)%float eqn:Ha.
  - left. exists p. repeat split; try lia; assumption.
  - right. split; [reflexivity|]. intros [_ (p' & Hp' & Ha')]. congruence.
Qed.

(** C2.  [makePayment(index, amt)] returns [true] exactly when [index] is a
    valid bill index and [amt >= payments[index].amount].  On success that
    bill is marked paid (amount and date kept), every other bill is as
    before, the reminder latch is cleared and no other field changes.  On
    failure the customer is unchanged, so an unpaid bill stays unpaid. *)
Theorem makePayment_contract (index : Z) (amt : float) (c : Customer.t) :
  let ok := fst (Customer.makePayment index amt c) in
  let c' := snd (Customer.makePayment index amt c) in
  (ok = true <->
     0 <= index < Z.of_nat (length (Customer.payments c)) /\
     exists p, Customer.payments c !! Z.to_nat index = Some p /\
               (Payment.amount p <=? amt)%float = true) /\
  (ok = true ->
     (exists p, Customer.payments c !! Z.to_nat index = Some p /\
        Customer.payments c' !! Z.to_nat index =
          Some {| Payment.amount := Payment.amount p; Payment.date := Payment.date p;
                  Payment.isPaid := true |}) /\
     (forall j, j <> Z.to_nat index ->
        Customer.payments c' !! j = Customer.payments c !! j) /\
     length (Customer.payments c') = length (Customer.payments c) /\
     Customer.reminderSent c' = false /\
     Customer.used c' = Customer.used c /\
     same_identity c c') /\
  (ok = false ->
     c' = c /\
     forall p, Customer.payments c !! Z.to_nat index = Some p ->
       Payment.isPaid p = false ->
       exists p', Customer.payments c' !! Z.to_nat index = Some p' /\
                  Payment.isPaid p' = false).
Proof.
  intros ok c'. subst ok c'.
  destruct (makePayment_cases index amt c)
    as [(p & Hi & Hp & Ha & ->)|[-> Hno]]; simpl.
  - split; [|split].
    + split; [intros _; eauto | reflexivity].
    + intros _. repeat split.
      * exists p. split; [exact Hp|].
        apply list_lookup_insert_eq. apply lookup_lt_Some in Hp. exact Hp.
      * intros j Hj. apply list_lookup_insert_ne. congruence.
      * apply length_insert.
    + discriminate.
  - split; [|split].
    + split; [discriminate | intros H; destruct (Hno H)].
    + discriminate.
    + intros _. split; [reflexivity|]. intros p Hp Hu. eauto.
Qed.

(** ** Customer::sendReminder *)

Lemma append_assoc (s t u : string) : (s +:+ t) +:+ u = s +:+ t +:+ u.
Proof.
  induction s as [|a s IH]; [reflexivity|].
  rewrite !append_String, IH. reflexivity.
Qed.

Lemma append_Empty_r (s : string) : s +:+ EmptyString = s.
Proof.
  induction s as [|a s IH]; [reflexivity|].
  rewrite append_String, IH. reflexivity.
Qed.

Lemma substring_of_app (q s a b : string) :
  substring_of q s -> substring_of q (a +:+ s +:+ b).
Proof.
  intros (pre & post & ->). exists (a +:+ pre), (post +:+ b).
  rewrite !append_assoc. reflexivity.
Qed.

Lemma substring_of_concat {A} (f : A -> string) (x : A) (l : list A) :
  In x l -> substring_of (f x) (String.concat EmptyString (map f l)).
Proof.
  assert (Hc : forall y l', String.concat EmptyString (map f (y :: l'))
                            = f y +:+ String.concat EmptyString (map f l')).
  { intros y [|z l']; simpl; [symmetry; apply append_Empty_r | reflexivity]. }
  induction l as [|y l IH]; [intros []|].
  intros [->|Hin]; rewrite Hc.
  - exists EmptyString, (String.concat EmptyString (map f l)). reflexivity.
  - destruct (IH Hin) as (pre & post & ->).
    exists (f y +:+ pre), post. rewrite !append_assoc. reflexivity.
Qed.

Section ReminderFacts.

Variable formatDate : Z -> string.
Variable fixed2 : float -> string.

Local Abbreviation reminderLine := (Customer.reminderLine formatDate fixed2).
Local Abbreviation reminderLoop := (Customer.reminderLoop formatDate fixed2).
Local Abbreviation sendReminder := (Customer.sendReminder formatDate fixed2).

(** The loop appends one line per overdue bill, in the order of the bills. *)
Lemma reminderLoop_lines (now : Z) (ps : list Payment.t) (text : string) :
  reminderLoop now ps text =
  text +:+ String.concat EmptyString
             (map (reminderLine now) (List.filter (Payment.isOverdue now) ps)).
Proof.
  unfold Customer.reminderLoop. revert text.
  induction ps as [|p ps IH]; intros text; simpl.
  - symmetry. apply append_Empty_r.
  - rewrite IH. destruct (Payment.isOverdue now p); [|reflexivity].
    rewrite append_assoc. f_equal.
    destruct (List.filter (Payment.isOverdue now) ps); simpl;
      [apply append_Empty_r | reflexivity].
Qed.

(** The line of a bill shows its amount and its days past the thirtieth. *)
Lemma reminderLine_shows (now : Z) (p : Payment.t) :
  substring_of (fixed2 (Payment.amount p)) (reminderLine now p) /\
  substring_of (to_string (Payment.getDaysSince now p - 30) +:+ " days overdue")
    (reminderLine now p).
Proof.
  unfold Customer.reminderLine. split.
  - exists ("Bill from " +:+ formatDate (Payment.date p) +:+ " - Amount: $").
    eexists. rewrite !append_assoc. reflexivity.
  - exists ("Bill from " +:+ formatDate (Payment.date p) +:+ " - Amount: $"
            +:+ fixed2 (Payment.amount p) +:+ " - ").
    exists nl. rewrite !append_assoc. reflexivity.
Qed.

(** The two outcomes of [sendReminder]. *)
Lemma sendReminder_cases (now : Z) (c : Customer.t) :
  (Customer.hasOverdue now c = true /\ Customer.reminderSent c = false /\
   sendReminder now c =
     (Customer.reminderHead c
        +:+ String.concat EmptyString
              (map (reminderLine now)
                 (List.filter (Payment.isOverdue now) (Customer.payments c)))
        +:+ Customer.reminderTail,
      Customer.set_reminderSent true c))
  \/ (~ (Customer.hasOverdue now c = true /\ Customer.reminderSent c = false) /\
      sendReminder now c = (EmptyString, c)).
Proof.
  unfold Customer.sendReminder.
  destruct (Customer.hasOverdue now c) eqn:Ho; simpl.
  2:{ right. split; [intros [? _]; discriminate | reflexivity]. }
  destruct (Customer.reminderSent c) eqn:Hs; simpl.
  { right. split; [intros [_ ?]; discriminate | reflexivity]. }
  left. repeat split. rewrite reminderLoop_lines, append_assoc. reflexivity.
Qed.

Lemma reminder_text_not_empty (c : Customer.t) (body : string) :
  Customer.reminderHead c +:+ body <> EmptyString.
Proof. unfold Customer.reminderHead. rewrite !append_String. discriminate. Qed.

(** Once the latch is set, [sendReminder] returns the empty text and changes
    nothing, at any time. *)
Lemma sendReminder_latched (now : Z) (c : Customer.t) :
  Customer.reminderSent c = true -> sendReminder now c = (EmptyString, c).
Proof.
  intros Hs. unfold Customer.sendReminder. rewrite Hs, andb_false_r. reflexivity.
Qed.

(** The scenario of the specification: an unpaid bill of 54.00 issued 31
    days ago is overdue, its customer has an overdue bill, and the reminder
    text holds the amount as rendered and ["1 days overdue"]. *)
Theorem scenario_overdue_reminder :
  fixed2 54 = "54.00" ->
  let bill := {| Payment.amount := 54; Payment.date := 0; Payment.isPaid := false |} in
  let c := Customer.set_payments [bill]
             (Customer.new 1001 "Jane Smith" "Ontario" "jsmith@email.com"
                "12 Walker Rd, Ontario" SOLAR 500) in
  let now := 31 * 86400 in
  Payment.isOverdue now bill = true /\
  Customer.hasOverdue now c = true /\
  substring_of "54.00" (fst (sendReminder now c)) /\
  substring_of "1 days overdue" (fst (sendReminder now c)) /\
  Customer.reminderSent (snd (sendReminder now c)) = true.
Proof.
  intros Hfix bill c now.
  split; [reflexivity|]. split; [reflexivity|].
  destruct (sendReminder_cases now c) as [(_ & _ & ->)|[Hn _]];
    [|destruct Hn; split; reflexivity].
  simpl. destruct (reminderLine_shows now bill) as [Hamt Hdays].
  change (fixed2 (Payment.amount bill)) with (fixed2 54) in Hamt. rewrite Hfix in Hamt.
  repeat split.
  - apply substring_of_app. exact Hamt.
  - apply substring_of_app. exact Hdays.
Qed.

(** C5.  [sendReminder] returns a non-empty text exactly when the customer
    has an overdue bill and the reminder latch is clear.  Then it sets the
    latch and changes nothing else, and the text is the heading, one line per
    bill that is overdue at that moment, in order, and the closing; the line
    of a bill shows its amount (as the stream renders it) and its day count
    less 30.  Otherwise the text is empty and nothing changes.  A second call
    right after a reminder, or at any later time, returns the empty text and
    changes nothing.  After a payment that succeeds, the next call made while
    a bill is overdue returns a non-empty text again, and only once. *)
Theorem sendReminder_contract (now : Z) (c : Customer.t) :
  let text := fst (sendReminder now c) in
  let c' := snd (sendReminder now c) in
  (text <> EmptyString <->
     Customer.hasOverdue now c = true /\ Customer.reminderSent c = false) /\
  (text <> EmptyString ->
     c' = Customer.set_reminderSent true c /\
     Customer.reminderSent c' = true /\
     text = Customer.reminderHead c
            +:+ String.concat EmptyString
                  (map (reminderLine now)
                     (List.filter (Payment.isOverdue now) (Customer.payments c)))
            +:+ Customer.reminderTail /\
     (forall p, In p (Customer.payments c) -> Payment.isOverdue now p = true ->
        substring_of (reminderLine now p) text /\
        substring_of (fixed2 (Payment.amount p)) (reminderLine now p) /\
        substring_of (to_string (Payment.getDaysSince now p - 30) +:+ " days overdue")
          (reminderLine now p)) /\
     (forall later, sendReminder later c' = (EmptyString, c')) /\
     (forall index amt later,
        fst (Customer.makePayment index amt c') = true ->
        let paid := snd (Customer.makePayment index amt c') in
        Customer.hasOverdue later paid = true ->
        fst (sendReminder later paid) <> EmptyString /\
        forall later', sendReminder later' (snd (sendReminder later paid))
                       = (EmptyString, snd (sendReminder later paid)))) /\
  (text = EmptyString -> c' = c).
Proof.
  intros text c'. subst text c'.
  destruct (sendReminder_cases now c) as [(Ho & Hs & ->)|[Hno ->]]; simpl.
  - split; [|split].
    + split; [auto | intros _; apply reminder_text_not_empty].
    + intros _. split; [reflexivity|]. split; [reflexivity|]. split; [reflexivity|].
      split; [|split].
      * intros p Hin Hp. split; [|apply reminderLine_shows].
        apply substring_of_app. apply (substring_of_concat (reminderLine now)).
        apply filter_In. auto.
      * intros later. apply sendReminder_latched. reflexivity.
      * intros index amt later Hok Hlater.
        destruct (makePayment_cases index amt (Customer.set_reminderSent true c))
          as [(p & _ & _ & _ & Hm)|[Hm _]]; rewrite Hm in *; [|discriminate].
        simpl in *.
        match goal with
        | |- context [Customer.sendReminder _ _ later ?x] =>
            destruct (sendReminder_cases later x) as [(_ & _ & ->)|[Hn _]]
        end.
        -- simpl. split; [apply reminder_text_not_empty|].
           intros later'. apply sendReminder_latched. reflexivity.
        -- destruct Hn. split; [assumption | reflexivity].
    + intros He. destruct (reminder_text_not_empty _ _ He).
  - split; [|split].
    + split; [intros H; destruct (H eq_refl) | intros H _; exact (Hno H)].
    + intros H. destruct (H eq_refl).
    + reflexivity.
Qed.

End ReminderFacts.

(** With a stream that renders every amount as 54.00. *)
Lemma scenario_overdue_reminder_witness :
  let bill := {| Payment.amount := 54; Payment.date := 0; Payment.isPaid := false |} in
  let c := Customer.set_payments [bill]
             (Customer.new 1001 "Jane Smith" "Ontario" "jsmith@email.com"
                "12 Walker Rd, Ontario" SOLAR 500) in
  let send := Customer.sendReminder (fun _ => "1970-01-01") (fun _ => "54.00") in
  let now := 31 * 86400 in
  Payment.isOverdue now bill = true /\
  Customer.hasOverdue now c = true /\
  substring_of "54.00" (fst (send now c)) /\
  substring_of "1 days overdue" (fst (send now c)) /\
  Customer.reminderSent (snd (send now c)) = true.
Proof.
  exact (scenario_overdue_reminder (fun _ => "1970-01-01") (fun _ => "54.00") eq_refl).
Defined.

(** C10.  Paying a bill that is already paid: with a valid index and a
    sufficient amount the call succeeds again, the bills are exactly as
    before (the bill stays paid), and the reminder latch is cleared whatever
    it was, nothing else changing; so a customer whose reminder was sent and
    who has an overdue bill is reminded again by the next [sendReminder]. *)
Theorem makePayment_on_paid_bill (formatDate : Z -> string) (fixed2 : float -> string)
    (now index : Z) (amt : float) (c : Customer.t) (p : Payment.t) :
  0 <= index ->
  Customer.payments c !! Z.to_nat index = Some p ->
  Payment.isPaid p = true ->
  (Payment.amount p <=? amt)%float = true ->
  let c' := snd (Customer.makePayment index amt c) in
  fst (Customer.makePayment index amt c) = true /\
  Customer.payments c' = Customer.payments c /\
  Customer.payments c' !! Z.to_nat index = Some p /\
  Customer.reminderSent c' = false /\
  c' = Customer.set_reminderSent false c /\
  (Customer.hasOverdue now c = true ->
   fst (Customer.sendReminder formatDate fixed2 now c') <> EmptyString).
Proof.
  intros H0 Hp Hpaid Ha c'. subst c'.
  assert (Hsame : <[Z.to_nat index := Payment.set_isPaid true p]> (Customer.payments c)
                  = Customer.payments c).
  { apply list_insert_id. rewrite Hp. f_equal.
    destruct p as [a d b]; simpl in *; subst b; reflexivity. }
  destruct (makePayment_cases index amt c)
    as [(p' & Hi & Hp' & Ha' & ->)|[_ Hno]]; simpl.
  2:{ destruct Hno. apply lookup_lt_Some in Hp as Hlt. split; [lia | eauto]. }
  assert (p' = p) by congruence. subst p'. rewrite Hsame.
  assert (Hset : Customer.set_payments (Customer.payments c) c = c)
    by (destruct c; reflexivity).
  rewrite Hset. split; [reflexivity|]. split; [reflexivity|]. split; [exact Hp|].
  split; [reflexivity|]. split; [reflexivity|].
  intros Hod.
  destruct (sendReminder_cases formatDate fixed2 now (Customer.set_reminderSent false c))
    as [(_ & _ & ->)|[Hn _]].
  - apply reminder_text_not_empty.
  - destruct Hn. split; [exact Hod | reflexivity].
Qed.

(** A customer with one paid and one overdue bill, already reminded: paying
    the paid bill again re-arms the reminder. *)
Lemma makePayment_on_paid_bill_witness :
  let c := {| Customer.id := 1001; Customer.name := "Jane Smith";
              Customer.province := "Ontario"; Customer.email := "jsmith@email.com";
              Customer.address := "12 Walker Rd, Ontario"; Customer.energyType := SOLAR;
              Customer.allocated := 500; Customer.used := 0;
              Customer.payments :=
                [ {| Payment.amount := 54; Payment.date := 0; Payment.isPaid := true |};
                  {| Payment.amount := 36; Payment.date := 0; Payment.isPaid := false |} ];
              Customer.reminderSent := true; Customer.maintenance := [] |} in
  let send := Customer.sendReminder (fun _ => "1970-01-01") (fun _ => "36.00") in
  let now := 31 * 86400 in
  let c' := snd (Customer.makePayment 0 54 c) in
  fst (send now c) = EmptyString /\
  fst (Customer.makePayment 0 54 c) = true /\
  Customer.payments c' = Customer.payments c /\
  Customer.reminderSent c' = false /\
  fst (send now c') <> EmptyString.
Proof.
  intros c send now c'.
  destruct (makePayment_on_paid_bill (fun _ => "1970-01-01") (fun _ => "36.00")
              now 0 54 c
              {| Payment.amount := 54; Payment.date := 0; Payment.isPaid := true |}
              (Z.le_refl 0) eq_refl eq_refl eq_refl)
    as (Hok & Hbills & _ & Hlatch & _ & Hsend).
  split; [reflexivity|]. split; [exact Hok|]. split; [exact Hbills|].
  split; [exact Hlatch|]. exact (Hsend eq_refl).
Defined.

(** ** Payment::isOverdue *)

Lemma getDaysSince_floor (now : Z) (p : Payment.t) :
  Payment.date p <= now ->
  (now - Payment.date p) / 86400 < 2147483648 ->
  Payment.getDaysSince now p = (now - Payment.date p) / 86400.
Proof.
  intros H Hint. unfold Payment.getDaysSince, to_int.
  change (60 * 60 * 24) with 86400. rewrite Z.quot_div_nonneg by lia.
  assert (0 <= (now - Payment.date p) / 86400) by (apply Z.div_pos; lia).
  destruct (Z.leb_spec (-2147483648) ((now - Payment.date p) / 86400)); [|lia].
  destruct (Z.leb_spec ((now - Payment.date p) / 86400) 2147483647); [|lia].
  reflexivity.
Qed.

(** C3, as the code has it.  The day count is an [int].  At a query time not
    before the issue time and with a whole-day count
    floor((now - date) / 86400) that fits an [int] (is below 2^31), a bill is
    overdue exactly when it is unpaid and that count exceeds 30.  A bill
    created at the query time is not overdue; an unpaid bill issued 30 days
    (2592000 s) before is not overdue; an unpaid bill issued 31 days
    (2678400 s) before is. *)
Theorem isOverdue_threshold (now : Z) (p : Payment.t) :
  Payment.date p <= now ->
  (now - Payment.date p) / 86400 < 2147483648 ->
  (Payment.isOverdue now p = true <->
     Payment.isPaid p = false /\ (now - Payment.date p) / 86400 > 30) /\
  (forall amt, Payment.isOverdue now (Payment.new now amt) = false) /\
  (Payment.isPaid p = false -> now - Payment.date p = 2592000 ->
     Payment.isOverdue now p = false) /\
  (Payment.isPaid p = false -> now - Payment.date p = 2678400 ->
     Payment.isOverdue now p = true).
Proof.
  intros Hle Hint. unfold Payment.isOverdue.
  rewrite (getDaysSince_floor now p Hle Hint). split; [|split; [|split]].
  - rewrite andb_true_iff, negb_true_iff. split; intros [H1 H2]; split; auto; lia.
  - intros amt. unfold Payment.getDaysSince, Payment.new; simpl.
    rewrite Z.sub_diag. reflexivity.
  - intros -> ->. reflexivity.
  - intros -> ->. reflexivity.
Qed.

(** An unpaid bill of 54.00 issued at time 0 and queried 31 days later. *)
Lemma isOverdue_threshold_witness :
  let p := {| Payment.amount := 54; Payment.date := 0; Payment.isPaid := false |} in
  let now := 2678400 in
  (Payment.isOverdue now p = true <->
     Payment.isPaid p = false /\ (now - Payment.date p) / 86400 > 30) /\
  (forall amt, Payment.isOverdue now (Payment.new now amt) = false) /\
  (Payment.isPaid p = false -> now - Payment.date p = 2592000 ->
     Payment.isOverdue now p = false) /\
  (Payment.isPaid p = false -> now - Payment.date p = 2678400 ->
     Payment.isOverdue now p = true).
Proof.
  intros p now. apply (isOverdue_threshold now p).
  - vm_compute. discriminate.
  - vm_compute. reflexivity.
Defined.

(** The claim as first stated, for every query time not before the issue
    time, fails where the day count leaves the range of [int]: an unpaid bill
    issued at time 0 and queried 2^31 days later has a whole-day count of
    2147483648, which exceeds 30, and a day count of [INT_MIN] in the code,
    so it is not overdue. *)
Lemma isOverdue_beyond_int_range :
  let p := {| Payment.amount := 54; Payment.date := 0; Payment.isPaid := false |} in
  let now := 2147483648 * 86400 in
  (Payment.date p <=? now) = true /\
  Payment.isPaid p = false /\
  (now - Payment.date p) / 86400 = 2147483648 /\
  (30 <? (now - Payment.date p) / 86400) = true /\
  Payment.getDaysSince now p = -2147483648 /\
  Payment.isOverdue now p = false.
Proof. vm_compute. repeat split. Qed.

(** ** Customer::createBill *)

(** Zero times an infinity or a NaN is NaN. *)
Lemma mul_zero_not_finite (u r : float) :
  (u =? 0)%float = true -> is_finite r = false ->
  Prim2SF (u * r)%float = S754_nan.
Proof.
  intros Hu Hr. destruct (Binary64.eqb_zero_inv u Hu) as [su Eu].
  assert (Er : Prim2SF r = S754_nan \/ exists s, Prim2SF r = S754_infinity s).
  { revert Hr. unfold is_finite, is_nan, is_infinity.
    rewrite !FloatAxioms.eqb_spec, abs_spec, Binary64.Prim2SF_infinity. unfold SFeqb.
    destruct (Prim2SF r) as [sx|sx| |sx mx ex]; eauto.
    - destruct sx; discriminate.
    - simpl. rewrite Z.compare_refl, Pos.compare_cont_refl.
      destruct sx; destruct (ex ?= 1024); discriminate. }
  rewrite mul_spec, Eu. unfold SF64mul.
  destruct Er as [->|[s ->]]; reflexivity.
Qed.

(** C4, as the code has it.  [createBill(rate)] has no guard: it appends
    exactly one bill, unpaid, dated by the clock, whose amount is the double
    product of the usage before the call and [rate]; the bills already there
    keep their places; [used] becomes 0; no other field changes.  With no
    usage the call still appends a bill; its amount is zero at every finite
    rate, so at each of the four catalog rates, and NaN at a rate that is an
    infinity or a NaN. *)
Theorem createBill_appends_and_resets (now : Z) (rate : float) (c : Customer.t) :
  let c' := Customer.createBill now rate c in
  Customer.payments c' =
    Customer.payments c ++
    [ {| Payment.amount := (Customer.used c * rate)%float; Payment.date := now;
         Payment.isPaid := false |} ] /\
  length (Customer.payments c') = S (length (Customer.payments c)) /\
  (forall i p, Customer.payments c !! i = Some p -> Customer.payments c' !! i = Some p) /\
  Customer.used c' = 0%float /\
  Customer.reminderSent c' = Customer.reminderSent c /\
  same_identity c c' /\
  ((Customer.used c =? 0)%float = true -> is_finite rate = true ->
   exists b, Customer.payments c' !! length (Customer.payments c) = Some b /\
             (Payment.amount b =? 0)%float = true /\ Payment.isPaid b = false) /\
  ((Customer.used c =? 0)%float = true ->
   forall type,
     (Customer.used c * EnergySystem.rates EnergySystem.new type =? 0)%float = true) /\
  ((Customer.used c =? 0)%float = true -> is_finite rate = false ->
   exists b, Customer.payments c' !! length (Customer.payments c) = Some b /\
             is_nan (Payment.amount b) = true /\
             (Payment.amount b =? 0)%float = false /\ Payment.isPaid b = false).
Proof.
  simpl. split; [reflexivity|]. split.
  { rewrite length_app. simpl. lia. }
  split.
  { intros i p Hp. apply lookup_app_l_Some. exact Hp. }
  split; [reflexivity|]. split; [reflexivity|]. split.
  { unfold same_identity. simpl. tauto. }
  split; [|split].
  - intros Hu Hr. eexists. split.
    + rewrite lookup_app_r by lia. rewrite Nat.sub_diag. reflexivity.
    + simpl. split; [apply Binary64.mul_zero_finite; assumption | reflexivity].
  - intros Hu type. apply Binary64.mul_zero_finite; [exact Hu|].
    destruct type; reflexivity.
  - intros Hu Hr. eexists. split.
    + rewrite lookup_app_r by lia. rewrite Nat.sub_diag. reflexivity.
    + simpl. pose proof (mul_zero_not_finite _ _ Hu Hr) as Hn.
      unfold is_nan. rewrite !FloatAxioms.eqb_spec, Hn. repeat split.
Qed.

(** The claim as first stated, for every rate, fails at a rate that is not
    finite: a new customer has used 0, and a bill at the rate infinity has
    the amount 0 * infinity, which is NaN and not zero. *)
Lemma createBill_zero_usage_infinite_rate :
  let c := Customer.new 1001 "Jane Smith" "Ontario" "jsmith@email.com"
             "12 Walker Rd, Ontario" SOLAR 500 in
  let c' := Customer.createBill 0 infinity c in
  Customer.used c = 0%float /\
  exists b, Customer.payments c' !! 0%nat = Some b /\
            is_nan (Payment.amount b) = true /\
            (Payment.amount b =? 0)%float = false.
Proof.
  simpl. split; [reflexivity|]. eexists. split; [reflexivity|].
  vm_compute. split; reflexivity.
Qed.

(** ** Customer::useEnergy, negative amounts *)

(** C9, as the code has it.  [useEnergy] puts no lower bound on the amount:
    for every customer, every amount with [amt <= allocated - used] is
    granted and added to [used].  When the remaining allocation satisfies
    [0 <= allocated - used], a comparison that fails for a negative remainder
    and for a NaN, every negative amount is granted.  A customer with
    allocation 500 and no usage is taken to -5 and then to -10 by two calls
    with -5: below its prior value each time, and below 0.  A customer whose
    remainder is NaN (an infinite allocation, used up by one call) is refused
    -5. *)
Theorem useEnergy_negative_amount (amt : float) (c : Customer.t) :
  ((amt <=? Customer.allocated c - Customer.used c)%float = true ->
   Customer.useEnergy amt c
   = (true, Customer.set_used (Customer.used c + amt)%float c)) /\
  ((0 <=? Customer.allocated c - Customer.used c)%float = true ->
   (amt <? 0)%float = true ->
   Customer.useEnergy amt c
   = (true, Customer.set_used (Customer.used c + amt)%float c)) /\
  (forall id name prov mail addr type,
     let c0 := Customer.new id name prov mail addr type 500 in
     let c1 := snd (Customer.useEnergy (-5) c0) in
     let c2 := snd (Customer.useEnergy (-5) c1) in
     fst (Customer.useEnergy (-5) c0) = true /\
     fst (Customer.useEnergy (-5) c1) = true /\
     Customer.used c1 = (-5)%float /\ Customer.used c2 = (-10)%float /\
     (Customer.used c1 <? Customer.used c0)%float = true /\
     (Customer.used c2 <? Customer.used c1)%float = true /\
     (Customer.used c2 <? 0)%float = true) /\
  (forall id name prov mail addr type,
     let c0 := Customer.new id name prov mail addr type infinity in
     let c1 := snd (Customer.useEnergy infinity c0) in
     fst (Customer.useEnergy infinity c0) = true /\
     is_nan (Customer.allocated c1 - Customer.used c1)%float = true /\
     (Customer.allocated c1 - Customer.used c1 <? 0)%float = false /\
     (0 <=? Customer.allocated c1 - Customer.used c1)%float = false /\
     Customer.useEnergy (-5) c1 = (false, c1)).
Proof.
  split; [|split; [|split]].
  - intros Hany. apply useEnergy_call. exact Hany.
  - intros Hrem Hneg. apply useEnergy_call. apply Binary64.ltb_zero_leb; assumption.
  - intros. vm_compute. repeat split.
  - intros. vm_compute. repeat split.
Qed.

(** A customer allocated 500 who has used 300, asked for -400. *)
Lemma useEnergy_negative_amount_witness :
  let c := snd (Customer.useEnergy 300
                  (Customer.new 1001 "Jane Smith" "Ontario" "jsmith@email.com"
                     "12 Walker Rd, Ontario" SOLAR 500)) in
  Customer.useEnergy (-400) c = (true, Customer.set_used (-100) c) /\
  Customer.used (snd (Customer.useEnergy (-400) c)) = (-100)%float.
Proof.
  intros c. split.
  - exact (proj1 (proj2 (useEnergy_negative_amount (-400) c)) eq_refl eq_refl).
  - reflexivity.
Defined.

(** C9, where the claim fails: a negative amount is refused when the
    remaining allocation is below it.  A customer built with allocation -10
    is refused -5; and the customer allocated 250.1 who has used 52.8 and
    197.3, whose usage has passed the allocation, is refused
    -0.00000000000001. *)
Lemma useEnergy_negative_amount_refused :
  Customer.useEnergy (-5)
    (Customer.new 1002 "John Brown" "Quebec" "jbrown@email.com"
       "7 Howard Ave, Quebec" NUCLEAR (-10))
  = (false,
     Customer.new 1002 "John Brown" "Quebec" "jbrown@email.com"
       "7 Howard Ave, Quebec" NUCLEAR (-10)) /\
  fst (Customer.useEnergy (-0.00000000000001)
         (Customer.useEnergyAll [52.8; 197.3]%float
            (Customer.new 1001 "Jane Smith" "Ontario" "jsmith@email.com"
               "12 Walker Rd, Ontario" SOLAR 250.1)))
  = false.
Proof. split; vm_compute; reflexivity. Qed.

(** ** EnergySystem::doBilling *)

Lemma billOne_cases (now : Z) (rates : EnergyType -> float) (c : Customer.t) :
  ((0 <? Customer.used c)%float = true /\
   EnergySystem.billOne now rates c
   = Customer.createBill now (rates (Customer.energyType c)) c)
  \/ ((0 <? Customer.used c)%float = false /\ EnergySystem.billOne now rates c = c).
Proof.
  unfold EnergySystem.billOne. destruct (0 <? Customer.used c)%float; auto.
Qed.

(** No positive usage is left by [billOne]. *)
Lemma billOne_not_positive (now : Z) (rates : EnergyType -> float) (c : Customer.t) :
  (0 <? Customer.used (EnergySystem.billOne now rates c))%float = false.
Proof.
  destruct (billOne_cases now rates c) as [[_ ->]|[H ->]]; [reflexivity | exact H].
Qed.

(** C6, as the code has it.  [doBilling] keeps the customers in place and
    touches nothing but them.  A customer with [used > 0] gets exactly the
    effect of one [createBill] at the catalog rate of its energy type: one
    new bill, usage reset.  Every other customer is skipped and left exactly
    as it was: one with [used == 0], and also one whose usage is negative.
    After the cycle no customer has positive usage; the usage of a customer
    that entered the cycle with [used >= 0] is zero. *)
Theorem doBilling_cycle (now : Z) (sys : EnergySystem.t) :
  let sys' := EnergySystem.doBilling now sys in
  length (EnergySystem.customers sys') = length (EnergySystem.customers sys) /\
  EnergySystem.provinces sys' = EnergySystem.provinces sys /\
  EnergySystem.rates sys' = EnergySystem.rates sys /\
  EnergySystem.trades sys' = EnergySystem.trades sys /\
  (forall i c, EnergySystem.customers sys !! i = Some c ->
     ((0 <? Customer.used c)%float = true ->
        EnergySystem.customers sys' !! i
        = Some (Customer.createBill now
                  (EnergySystem.rates sys (Customer.energyType c)) c)) /\
     ((0 <? Customer.used c)%float = false ->
        EnergySystem.customers sys' !! i = Some c) /\
     ((Customer.used c =? 0)%float = true ->
        EnergySystem.customers sys' !! i = Some c) /\
     ((0 <=? Customer.used c)%float = true ->
        exists c', EnergySystem.customers sys' !! i = Some c' /\
                   (Customer.used c' =? 0)%float = true)) /\
  (forall i c', EnergySystem.customers sys' !! i = Some c' ->
     (0 <? Customer.used c')%float = false).
Proof.
  unfold EnergySystem.doBilling. simpl.
  split; [apply length_map|]. do 3 (split; [reflexivity|]). split.
  - intros i c Hc.
    assert (Hi : map (EnergySystem.billOne now (EnergySystem.rates sys))
                   (EnergySystem.customers sys) !! i
                 = Some (EnergySystem.billOne now (EnergySystem.rates sys) c))
      by (rewrite list_lookup_fmap, Hc; reflexivity).
    rewrite Hi.
    destruct (billOne_cases now (EnergySystem.rates sys) c) as [[Hpos ->]|[Hnot ->]].
    + split; [reflexivity|]. split; [congruence|]. split.
      * intros Hz. apply Binary64.eqb_ltb_false in Hz. congruence.
      * intros _. eexists. split; [reflexivity | reflexivity].
    + split; [congruence|]. split; [reflexivity|]. split; [reflexivity|].
      intros Hle. exists c. split; [reflexivity|].
      destruct (Binary64.leb_ltb_eqb _ _ Hle) as [Hlt|Heq]; [congruence|].
      rewrite FloatAxioms.eqb_spec in *. unfold SFeqb in *.
      rewrite (Binary64.SFcompare_antisym (Prim2SF 0) (Prim2SF (Customer.used c))).
      destruct (SFcompare (Prim2SF 0) (Prim2SF (Customer.used c))) as [[]|];
        simpl; congruence.
  - intros i c' Hc'. rewrite list_lookup_fmap in Hc'.
    destruct (EnergySystem.customers sys !! i) as [c|]; [|discriminate].
    injection Hc' as <-. apply billOne_not_positive.
Qed.

(** C6, where the claim fails: a customer allocated 500 whose usage was
    taken to -5 is skipped by the billing cycle like one with no usage, and
    its usage is -5 after the cycle, not 0. *)
Lemma doBilling_leaves_negative_usage :
  let c := snd (Customer.useEnergy (-5)
                  (Customer.new 1001 "Jane Smith" "Ontario" "jsmith@email.com"
                     "12 Walker Rd, Ontario" SOLAR 500)) in
  let sys' := EnergySystem.doBilling 0 (EnergySystem.populate [c]) in
  EnergySystem.customers sys' = [c] /\
  Customer.used c = (-5)%float /\
  (Customer.used c =? 0)%float = false /\
  Customer.payments c = [].
Proof. vm_compute. repeat split. Qed.

(** ** EnergySystem::findCustomers *)

Lemma selected_matches (query prov : string) (c : Customer.t) :
  selected query prov c = true <-> matches query prov c.
Proof.
  unfold selected, matches.
  assert (Hprov : negb (empty prov) && negb (String.eqb (Customer.province c) prov) = false
                  <-> prov = EmptyString \/ Customer.province c = prov).
  { destruct prov as [|a prov]; simpl.
    - split; auto.
    - destruct (String.eqb_spec (Customer.province c) (String a prov)) as [->|Hne]; simpl.
      + split; auto.
      + split; [discriminate | intros [H|H]; [discriminate | contradiction]]. }
  destruct (negb (empty prov) && negb (String.eqb (Customer.province c) prov)).
  - split; [discriminate|]. intros [H _]. apply Hprov in H. discriminate.
  - rewrite !orb_true_iff, !find_substring. split.
    + intros H. split; [apply Hprov; reflexivity | tauto].
    + intros [_ H]. tauto.
Qed.

Lemma findLoop_step (query prov : string) (c : Customer.t) (cs : list Customer.t)
    (i : nat) (results : list nat) :
  EnergySystem.findLoop query prov (c :: cs) i results =
  EnergySystem.findLoop query prov cs (S i)
    (if selected query prov c then results ++ [i] else results).
Proof.
  unfold selected. simpl.
  destruct (negb (empty prov) && negb (String.eqb (Customer.province c) prov));
    [reflexivity|].
  destruct (found (to_string (Customer.id c)) query || found (Customer.name c) query
            || found (Customer.email c) query); reflexivity.
Qed.

(** What was pushed stays, in front. *)
Lemma findLoop_results (query prov : string) (cs : list Customer.t) (i : nat)
    (results : list nat) :
  EnergySystem.findLoop query prov cs i results =
  results ++ EnergySystem.findLoop query prov cs i [].
Proof.
  revert i results. induction cs as [|c cs IH]; intros i results.
  - simpl. rewrite app_nil_r. reflexivity.
  - rewrite !findLoop_step. destruct (selected query prov c).
    + rewrite (IH (S i) (results ++ [i])), (IH (S i) ([] ++ [i])).
      rewrite <- app_assoc. reflexivity.
    + apply IH.
Qed.

Lemma findLoop_In (query prov : string) (cs : list Customer.t) (i k : nat) :
  In k (EnergySystem.findLoop query prov cs i []) <->
  (i <= k)%nat /\ exists c, cs !! (k - i)%nat = Some c /\ selected query prov c = true.
Proof.
  revert i. induction cs as [|c cs IH]; intros i.
  - simpl. split; [intros [] | intros [_ (c & Hc & _)]; discriminate].
  - rewrite findLoop_step.
    assert (Htail : In k (EnergySystem.findLoop query prov cs (S i) []) <->
                    (i < k)%nat /\ exists c', (c :: cs) !! (k - i)%nat = Some c'
                                               /\ selected query prov c' = true).
    { rewrite IH. split.
      - intros [Hk (c' & Hc' & Hs)]. split; [lia|]. exists c'. split; [|exact Hs].
        replace (k - i)%nat with (S (k - S i)) by lia. exact Hc'.
      - intros [Hk (c' & Hc' & Hs)]. split; [lia|]. exists c'. split; [|exact Hs].
        replace (k - i)%nat with (S (k - S i)) in Hc' by lia. exact Hc'. }
    destruct (selected query prov c) eqn:Hsel.
    + rewrite findLoop_results, in_app_iff, Htail. simpl. split.
      * intros [[<-|[]]|[Hk H]].
        -- split; [lia|]. exists c. rewrite Nat.sub_diag. auto.
        -- split; [lia | exact H].
      * intros [Hk (c' & Hc' & Hs)]. destruct (decide (k = i)) as [->|Hne].
        -- left. left. reflexivity.
        -- right. split; [lia | eauto].
    + rewrite Htail. split.
      * intros [Hk H]. split; [lia | exact H].
      * intros [Hk (c' & Hc' & Hs)]. split; [|eauto].
        destruct (decide (k = i)) as [->|Hne]; [|lia].
        rewrite Nat.sub_diag in Hc'. simpl in Hc'. congruence.
Qed.

Lemma findLoop_sorted (query prov : string) (cs : list Customer.t) (i : nat) :
  StronglySorted lt (EnergySystem.findLoop query prov cs i []).
Proof.
  revert i. induction cs as [|c cs IH]; intros i.
  - constructor.
  - rewrite findLoop_step. destruct (selected query prov c); [|apply IH].
    rewrite findLoop_results. simpl. constructor; [apply IH|].
    apply List.Forall_forall. intros k Hk. apply findLoop_In in Hk as [Hk _]. lia.
Qed.

(** C7, as the code has it.  [findCustomers(query, prov)] returns the
    positions of the customers that match, each once, in increasing position,
    which is the order of insertion: those whose province is [prov] when
    [prov] is not empty, and in whose id (in decimal), name or email [query]
    occurs, case kept.  For the query ["Smith"] with no province these are
    the customers with ["Smith"] in the name or in the email (no id holds
    it); for the empty query and ["Ontario"] they are the customers of
    Ontario. *)
Theorem findCustomers_search (query prov : string) (sys : EnergySystem.t) :
  StronglySorted lt (EnergySystem.findCustomers query prov sys) /\
  (forall i, In i (EnergySystem.findCustomers query prov sys) <->
     exists c, EnergySystem.customers sys !! i = Some c /\ matches query prov c) /\
  (forall i, In i (EnergySystem.findCustomers "Smith" EmptyString sys) <->
     exists c, EnergySystem.customers sys !! i = Some c /\
       (substring_of "Smith" (Customer.name c) \/
        substring_of "Smith" (Customer.email c))) /\
  (forall i, In i (EnergySystem.findCustomers EmptyString "Ontario" sys) <->
     exists c, EnergySystem.customers sys !! i = Some c /\
       Customer.province c = "Ontario").
Proof.
  unfold EnergySystem.findCustomers.
  assert (Hgen : forall q pr i,
            In i (EnergySystem.findLoop q pr (EnergySystem.customers sys) 0 []) <->
            exists c, EnergySystem.customers sys !! i = Some c /\ matches q pr c).
  { intros q pr i. rewrite findLoop_In, Nat.sub_0_r. split.
    - intros [_ (c & Hc & Hs)]. exists c. split; [exact Hc | apply selected_matches, Hs].
    - intros (c & Hc & Hm). split; [lia|]. exists c.
      split; [exact Hc | apply selected_matches, Hm]. }
  split; [apply findLoop_sorted|]. split; [apply Hgen|]. split.
  - intros i. rewrite Hgen. split.
    + intros (c & Hc & _ & [Hid|Hrest]); [|eauto].
      apply find_substring in Hid. rewrite Smith_not_in_id in Hid. discriminate.
    + intros (c & Hc & H). exists c. split; [exact Hc|]. split; [left; reflexivity | tauto].
  - intros i. rewrite Hgen. split.
    + intros (c & Hc & [Hp|Hp] & _); [discriminate | eauto].
    + intros (c & Hc & Hp). exists c. split; [exact Hc|]. split; [right; exact Hp|].
      left. apply find_substring. apply found_empty.
Qed.

(** C7, where the claim fails: the search for ["Smith"] also returns a
    customer whose name does not hold it but whose email does. *)
Lemma findCustomers_Smith_in_email :
  let jane := Customer.new 1001 "Jane Smith" "Ontario" "jsmith@email.com"
                "12 Walker Rd, Ontario" SOLAR 500 in
  let mike := Customer.new 1002 "Mike Jones" "Quebec" "Mike.Smithson@email.com"
                "7 Howard Ave, Quebec" NUCLEAR 400 in
  let sys := EnergySystem.populate [jane; mike] in
  EnergySystem.findCustomers "Smith" EmptyString sys = [0%nat; 1%nat] /\
  EnergySystem.customers sys !! 1%nat = Some mike /\
  found (Customer.name mike) "Smith" = false /\
  found (Customer.email mike) "Smith" = true.
Proof. vm_compute. repeat split. Qed.

(** ** Percentages of the report and of the statistics *)

(** The province index of a reachable directory: no bucket is empty, and
    every entry is the position of a customer. *)
Lemma reachable_provinces (sys : EnergySystem.t) :
  EnergySystem.reachable sys ->
  forall prov ids, EnergySystem.provinces sys !! prov = Some ids ->
    ids <> [] /\
    Forall (fun idx => 0 <= idx < Z.of_nat (length (EnergySystem.customers sys))) ids.
Proof.
  induction 1 as [|c sys Hr IH|now sys Hr IH|fd fx now sys Hr IH]; intros prov ids Hids.
  - discriminate.
  - unfold EnergySystem.addCustomer in Hids |- *. simpl in *.
    rewrite length_app. simpl.
    destruct (decide (Customer.province c = prov)) as [<-|Hne].
    + rewrite lookup_insert_eq in Hids. injection Hids as <-. split.
      * intros H. apply app_eq_nil in H as [_ H]. discriminate.
      * apply Forall_app. split;
          [|constructor; [rewrite length_app; simpl; lia | constructor]].
        destruct (EnergySystem.provinces sys !! Customer.province c) as [b|] eqn:Hb;
          simpl; [|constructor].
        destruct (IH _ _ Hb) as [_ Hall]. eapply Forall_impl; [exact Hall|].
        simpl. intros idx Hidx. lia.
    + rewrite lookup_insert_ne in Hids by exact Hne.
      destruct (IH _ _ Hids) as [Hnil Hall]. split; [exact Hnil|].
      eapply Forall_impl; [exact Hall|]. simpl. intros idx Hidx. lia.
  - simpl in *. rewrite length_map. exact (IH prov ids Hids).
  - simpl in *. rewrite !length_map. exact (IH prov ids Hids).
Qed.

(** Over valid positions the province loop runs to its end. *)
Lemma provinceLoop_valid (now : Z) (cs : list Customer.t) (ids : list Z)
    (acc : EnergySystem.ProvinceTotals) :
  Forall (fun idx => 0 <= idx < Z.of_nat (length cs)) ids ->
  exists tot, EnergySystem.provinceLoop now cs ids acc = Some tot.
Proof.
  intros Hall. revert acc. induction Hall as [|idx ids [H0 H1] _ IH]; intros acc; simpl.
  - eauto.
  - assert (Hb : (0 <=? idx) && (idx <? Z.of_nat (length cs)) = true)
      by (apply andb_true_iff; split; lia).
    rewrite Hb. destruct (lookup_lt_is_Some_2 cs (Z.to_nat idx)) as [c Hc]; [lia|].
    rewrite Hc. apply IH.
Qed.

(** C8, as the code has it.  No percentage is guarded.  With no customers
    the overdue percentage of the monthly report and that of the statistics
    are both NaN (0/0), not 0.  A province has a block in the report only if
    it has a bucket in the index; in a reachable directory every bucket
    holds at least one valid position, so the block exists and its customer
    count, the divisor of its overdue percentage, is at least 1.  The usage
    percentage of a block is [used / allocated * 100] as computed: not a
    finite number when the total allocation is zero, and NaN when the total
    usage is zero as well. *)
Theorem percentages_unguarded (now : Z) (sys : EnergySystem.t) :
  (EnergySystem.customers sys = [] ->
     EnergySystem.reportOverduePercent now sys = nan /\
     EnergySystem.statsOverduePercent now sys = nan) /\
  (forall prov, EnergySystem.provinces sys !! prov = None ->
     EnergySystem.provinceBreakdown now sys !! prov = None) /\
  (EnergySystem.reachable sys ->
   forall prov ids, EnergySystem.provinces sys !! prov = Some ids ->
     exists b, EnergySystem.provinceBreakdown now sys !! prov = Some (Some b) /\
       EnergySystem.b_customers b = length ids /\
       (1 <= EnergySystem.b_customers b)%nat) /\
  (forall ids b, EnergySystem.provinceBlock now (EnergySystem.customers sys) ids = Some b ->
     let tot := EnergySystem.b_totals b in
     EnergySystem.b_usagePercent b
       = (EnergySystem.p_used tot / EnergySystem.p_allocated tot * 100)%float /\
     EnergySystem.b_overduePercent b
       = (to_double (EnergySystem.p_overdue tot) * 100
          / to_double (Z.of_nat (length ids)))%float /\
     ((EnergySystem.p_allocated tot =? 0)%float = true ->
        is_finite (EnergySystem.b_usagePercent b) = false /\
        ((EnergySystem.p_used tot =? 0)%float = true ->
           EnergySystem.b_usagePercent b = nan))).
Proof.
  split; [|split; [|split]].
  - intros Hnil. unfold EnergySystem.reportOverduePercent, EnergySystem.statsOverduePercent.
    rewrite Hnil. split; reflexivity.
  - intros prov Hnone. unfold EnergySystem.provinceBreakdown.
    rewrite lookup_fmap, Hnone. reflexivity.
  - intros Hr prov ids Hids.
    destruct (reachable_provinces sys Hr prov ids Hids) as [Hne Hall].
    destruct (provinceLoop_valid now (EnergySystem.customers sys) ids
                (EnergySystem.mkTotals 0 0 0 0) Hall) as [tot Htot].
    unfold EnergySystem.provinceBreakdown, EnergySystem.provinceBlock.
    rewrite lookup_fmap, Hids. simpl. rewrite Htot.
    eexists. split; [reflexivity|]. simpl. split; [reflexivity|].
    destruct ids; [contradiction | simpl; lia].
  - intros ids b Hb. unfold EnergySystem.provinceBlock in Hb.
    destruct (EnergySystem.provinceLoop now (EnergySystem.customers sys) ids
                (EnergySystem.mkTotals 0 0 0 0)) as [tot|]; [|discriminate].
    injection Hb as <-. simpl. split; [reflexivity|]. split; [reflexivity|].
    intros Hz.
    destruct (Binary64.div_by_zero_times_100 (EnergySystem.p_used tot)
                (EnergySystem.p_allocated tot) Hz) as [Hfin Hnan].
    split; [exact Hfin|]. intros Hu. apply Hnan. exact Hu.
Qed.

(** C8, where the claim fails: the new directory has no customers, and both
    overdue percentages are NaN, which is not 0; a province whose only
    customer has allocation 0 has a usage percentage of NaN. *)
Lemma percentages_of_empty_population :
  EnergySystem.reportOverduePercent 0 EnergySystem.new = nan /\
  EnergySystem.statsOverduePercent 0 EnergySystem.new = nan /\
  (EnergySystem.reportOverduePercent 0 EnergySystem.new =? 0)%float = false /\
  (EnergySystem.statsOverduePercent 0 EnergySystem.new =? 0)%float = false /\
  exists b,
    EnergySystem.provinceBreakdown 0
      (EnergySystem.populate
         [Customer.new 1001 "Jane Smith" "Ontario" "jsmith@email.com"
            "12 Walker Rd, Ontario" SOLAR 0]) !! "Ontario"
    = Some (Some b) /\
    EnergySystem.b_customers b = 1%nat /\
    EnergySystem.b_usagePercent b = nan /\
    (EnergySystem.b_usagePercent b =? 0)%float = false.
Proof.
  do 4 (split; [reflexivity|]). eexists. split; [vm_compute; reflexivity|].
  repeat split.
Qed.

(** * Further facts: the rest of the two files *)

(** ** NaN and zero in binary64 *)

Module Binary64Edge.

Local Open Scope float_scope.

Lemma SFcompare_finite_refl (s : bool) (m : positive) (e : Z) :
  SFcompare (S754_finite s m e) (S754_finite s m e) = Some Eq.
Proof.
  simpl. rewrite Z.compare_refl, Pos.compare_cont_refl. destruct s; reflexivity.
Qed.

(** The numbers not equal to themselves are the NaN. *)
Lemma is_nan_inv (x : float) : is_nan x = true -> Prim2SF x = S754_nan.
Proof.
  unfold is_nan. rewrite FloatAxioms.eqb_spec. unfold SFeqb.
  destruct (Prim2SF x) as [s|s| |s m e]; try reflexivity.
  - discriminate.
  - destruct s; discriminate.
  - rewrite SFcompare_finite_refl. discriminate.
Qed.

Lemma not_nan_inv (x : float) : is_nan x = false -> Prim2SF x <> S754_nan.
Proof.
  unfold is_nan. rewrite FloatAxioms.eqb_spec. intros H E. rewrite E in H. discriminate.
Qed.

(** No comparison holds of a NaN. *)
Lemma nan_leb (x y : float) :
  is_nan x = true -> (x <=? y) = false /\ (y <=? x) = false.
Proof.
  intros H. apply is_nan_inv in H. rewrite !FloatAxioms.leb_spec, H. unfold SFleb.
  split; [reflexivity|]. destruct (Prim2SF y); reflexivity.
Qed.

(** Every number but NaN is at most the sum of zero and itself. *)
Lemma leb_zero_plus (x : float) : is_nan x = false -> (x <=? 0 + x) = true.
Proof.
  intros H. apply not_nan_inv in H.
  rewrite FloatAxioms.leb_spec, add_spec, Binary64.Prim2SF_zero. unfold SFleb, SF64add.
  destruct (Prim2SF x) as [s|s| |s m e]; [| | contradiction |].
  - destruct s; reflexivity.
  - destruct s; reflexivity.
  - cbn [SFadd]. rewrite SFcompare_finite_refl. reflexivity.
Qed.

(** The sum of zero and a number is zero only for a zero. *)
Lemma zero_plus_paid (x : float) : (0 + x =? 0) = true -> (x =? 0) = true.
Proof.
  rewrite !FloatAxioms.eqb_spec, add_spec, Binary64.Prim2SF_zero. unfold SF64add.
  destruct (Prim2SF x) as [s|s| |s m e]; try (destruct s); auto.
Qed.

(** Taking zero away changes nothing. *)
Lemma sub_zero (x : float) : x - 0 = x.
Proof.
  apply Prim2SF_inj. rewrite sub_spec, Binary64.Prim2SF_zero. unfold SF64sub.
  destruct (Prim2SF x) as [s|s| |s m e]; try (destruct s); reflexivity.
Qed.

End Binary64Edge.

(** ** Overdue bills and the clock *)

Lemma getDaysSince_over_30 (now : Z) (p : Payment.t) :
  (Payment.getDaysSince now p >? 30) = true <->
  Payment.date p + 2678400 <= now /\ now < Payment.date p + 2147483648 * 86400.
Proof.
  unfold Payment.getDaysSince, to_int. change (60 * 60 * 24) with 86400.
  rewrite Z.gtb_ltb, Z.ltb_lt.
  destruct (Z.leb_spec (-2147483648) (Z.quot (now - Payment.date p) 86400));
    destruct (Z.leb_spec (Z.quot (now - Payment.date p) 86400) 2147483647);
    simpl; Z.to_euclidean_division_equations; lia.
Qed.

Lemma isOverdue_seconds (now : Z) (p : Payment.t) :
  Payment.isOverdue now p = true <->
  Payment.isPaid p = false /\
  Payment.date p + 2678400 <= now /\ now < Payment.date p + 2147483648 * 86400.
Proof.
  unfold Payment.isOverdue.
  rewrite andb_true_iff, negb_true_iff, getDaysSince_over_30. tauto.
Qed.

Lemma anyOverdue_exists (now : Z) (ps : list Payment.t) :
  Customer.anyOverdue now ps = true <->
  exists p, In p ps /\ Payment.isOverdue now p = true.
Proof.
  induction ps as [|p ps IH]; simpl.
  - split; [discriminate | intros (p & [] & _)].
  - destruct (Payment.isOverdue now p) eqn:Hp.
    + split; eauto.
    + rewrite IH. split.
      * intros (q & Hq & Ho). eauto.
      * intros (q & [->|Hq] & Ho); [congruence | eauto].
Qed.

Lemma hasOverdue_seconds (now : Z) (c : Customer.t) :
  Customer.hasOverdue now c = true <->
  exists p, In p (Customer.payments c) /\
            Payment.isPaid p = false /\
            Payment.date p + 2678400 <= now /\
            now < Payment.date p + 2147483648 * 86400.
Proof.
  unfold Customer.hasOverdue. rewrite anyOverdue_exists.
  split; intros (p & Hin & H); exists p; (split; [exact Hin|]);
    apply isOverdue_seconds; exact H.
Qed.

(** The day count is an [int], so a bill is overdue over a window of query
    times: exactly when it is unpaid, issued at least 31 days (2678400
    seconds) before the query, and issued less than 2^31 days before it,
    whatever the two times are.  A query at or before the issue time never
    finds it overdue, and neither does a query 2^31 days or more after it,
    where the day count is [INT_MIN].  A customer has an overdue bill exactly
    when one of its bills is so, and once it has, it keeps having one at
    every later time that is less than 2^31 days after the issue of each of
    its bills, as long as the bills are unchanged. *)
Theorem overdue_after_31_days (now later : Z) (p : Payment.t) (c : Customer.t) :
  (Payment.isOverdue now p = true <->
     Payment.isPaid p = false /\
     Payment.date p + 2678400 <= now /\ now < Payment.date p + 2147483648 * 86400) /\
  (now <= Payment.date p -> Payment.isOverdue now p = false) /\
  (Payment.date p + 2147483648 * 86400 <= now ->
     Payment.getDaysSince now p = -2147483648 /\ Payment.isOverdue now p = false) /\
  (Customer.hasOverdue now c = true <->
     exists q, In q (Customer.payments c) /\
               Payment.isPaid q = false /\
               Payment.date q + 2678400 <= now /\
               now < Payment.date q + 2147483648 * 86400) /\
  (now <= later ->
     (forall q, In q (Customer.payments c) ->
                later < Payment.date q + 2147483648 * 86400) ->
     Customer.hasOverdue now c = true ->
     Customer.hasOverdue later c = true).
Proof.
  split; [apply isOverdue_seconds|].
  split; [|split; [|split; [apply hasOverdue_seconds|]]].
  - intros Hle. destruct (Payment.isOverdue now p) eqn:H; [|reflexivity].
    apply isOverdue_seconds in H. lia.
  - intros Hle. split.
    + unfold Payment.getDaysSince, to_int. change (60 * 60 * 24) with 86400.
      destruct (Z.leb_spec (Z.quot (now - Payment.date p) 86400) 2147483647)
        as [Hq|Hq]; [|rewrite andb_false_r; reflexivity].
      revert Hq. Z.to_euclidean_division_equations. lia.
    + destruct (Payment.isOverdue now p) eqn:H; [|reflexivity].
      apply isOverdue_seconds in H. lia.
  - intros Hle Hrange H. apply hasOverdue_seconds in H as (q & Hin & Hu & Hd & _).
    apply hasOverdue_seconds. exists q. split; [exact Hin|]. split; [exact Hu|].
    specialize (Hrange q Hin). lia.
Qed.

(** ** NaN amounts *)

(** A NaN is never granted and never pays: [useEnergy] and [makePayment]
    refuse a NaN amount and change nothing; a customer whose remaining
    allocation [allocated - used] is NaN is refused every amount; a bill
    whose amount is NaN cannot be paid with any amount. *)
Theorem nan_is_refused (index : Z) (amt : float) (c : Customer.t) :
  (is_nan amt = true ->
     Customer.useEnergy amt c = (false, c) /\
     Customer.makePayment index amt c = (false, c)) /\
  (is_nan (Customer.allocated c - Customer.used c)%float = true ->
     forall any, Customer.useEnergy any c = (false, c)) /\
  (forall p, Customer.payments c !! Z.to_nat index = Some p ->
     is_nan (Payment.amount p) = true ->
     forall any, Customer.makePayment index any c = (false, c)).
Proof.
  split; [|split].
  - intros Hn. split.
    + unfold Customer.useEnergy.
      rewrite (proj1 (Binary64Edge.nan_leb amt _ Hn)). reflexivity.
    + destruct (makePayment_cases index amt c) as [(p & _ & _ & Ha & _)|[H _]];
        [|exact H].
      rewrite (proj2 (Binary64Edge.nan_leb amt _ Hn)) in Ha. discriminate.
  - intros Hn any. unfold Customer.useEnergy.
    rewrite (proj2 (Binary64Edge.nan_leb _ any Hn)). reflexivity.
  - intros p Hp Hn any.
    destruct (makePayment_cases index any c) as [(p' & _ & Hp' & Ha & _)|[H _]];
      [|exact H].
    assert (p' = p) by congruence. subst p'.
    rewrite (proj1 (Binary64Edge.nan_leb _ any Hn)) in Ha. discriminate.
Qed.

(** ** Customer::getTotalOwed *)

Lemma getTotalOwed_payments (c c' : Customer.t) :
  Customer.payments c' = Customer.payments c ->
  Customer.getTotalOwed c' = Customer.getTotalOwed c.
Proof. unfold Customer.getTotalOwed. intros ->. reflexivity. Qed.

Lemma owed_all_paid (ps : list Payment.t) (total : float) :
  Forall (fun p => Payment.isPaid p = true) ps ->
  fold_left
    (fun total p =>
       if negb (Payment.isPaid p) then (total + Payment.amount p)%float else total)
    ps total = total.
Proof.
  intros H. revert total. induction H as [|p ps Hp _ IH]; intros total; simpl.
  - reflexivity.
  - rewrite Hp. simpl. apply IH.
Qed.

(** What is owed follows the bills and nothing else.  It is computed anew
    from the bills at each call: a new bill adds its amount, the double
    product [used * rate], to it at once; recording usage, maintenance and
    reminders leave it as it is, and so does a refused payment; when every
    bill is paid it is 0. *)
Theorem getTotalOwed_follows_bills (formatDate : Z -> string) (fixed2 : float -> string)
    (now index : Z) (rate amt : float) (d : string) (c : Customer.t) :
  Customer.getTotalOwed (Customer.createBill now rate c)
    = (Customer.getTotalOwed c + Customer.used c * rate)%float /\
  Customer.getTotalOwed (snd (Customer.useEnergy amt c)) = Customer.getTotalOwed c /\
  Customer.getTotalOwed (Customer.addMaintenance now d amt c) = Customer.getTotalOwed c /\
  Customer.getTotalOwed (snd (Customer.sendReminder formatDate fixed2 now c))
    = Customer.getTotalOwed c /\
  (fst (Customer.makePayment index amt c) = false ->
     Customer.getTotalOwed (snd (Customer.makePayment index amt c))
     = Customer.getTotalOwed c) /\
  (Forall (fun p => Payment.isPaid p = true) (Customer.payments c) ->
     Customer.getTotalOwed c = 0%float).
Proof.
  split; [|split; [|split; [|split; [|split]]]].
  - unfold Customer.getTotalOwed, Customer.createBill. simpl.
    rewrite fold_left_app. reflexivity.
  - apply getTotalOwed_payments. unfold Customer.useEnergy.
    destruct (_ <=? _)%float; reflexivity.
  - reflexivity.
  - apply getTotalOwed_payments.
    destruct (sendReminder_cases formatDate fixed2 now c) as [(_ & _ & ->)|[_ ->]];
      reflexivity.
  - intros Hf. destruct (makePayment_cases index amt c) as [(p & _ & _ & _ & H)|[H _]];
      rewrite H in *; [discriminate | reflexivity].
  - intros Hall. apply owed_all_paid. exact Hall.
Qed.

(** What [createTestData] does with a bill: a customer without bills is
    billed and then pays bill 0 with [getTotalOwed()].  The payment succeeds
    exactly when the amount billed is not NaN; it leaves every bill paid,
    nothing owed, and no bill that is overdue at any time. *)
Theorem pay_total_owed_in_full (now : Z) (rate : float) (c : Customer.t) :
  Customer.payments c = [] ->
  let billed := Customer.createBill now rate c in
  let ok := fst (Customer.makePayment 0 (Customer.getTotalOwed billed) billed) in
  let c' := snd (Customer.makePayment 0 (Customer.getTotalOwed billed) billed) in
  (ok = true <-> is_nan (Customer.used c * rate)%float = false) /\
  (ok = true ->
     Customer.payments c' =
       [ {| Payment.amount := (Customer.used c * rate)%float; Payment.date := now;
            Payment.isPaid := true |} ] /\
     Customer.getTotalOwed c' = 0%float /\
     forall later, Customer.hasOverdue later c' = false) /\
  (ok = false -> c' = billed).
Proof.
  intros Hnil billed ok c'. subst billed ok c'.
  unfold Customer.makePayment, Customer.getTotalOwed, Customer.createBill.
  simpl. rewrite Hnil. simpl.
  destruct (is_nan (Customer.used c * rate)%float) eqn:Hn.
  - rewrite (proj1 (Binary64Edge.nan_leb _ (0 + Customer.used c * rate)%float Hn)).
    simpl. split; [split; discriminate|]. split; [discriminate | reflexivity].
  - rewrite (Binary64Edge.leb_zero_plus _ Hn). simpl.
    split; [split; reflexivity|]. split; [|discriminate].
    intros _. split; [reflexivity|]. split; [reflexivity|].
    intros later. unfold Customer.hasOverdue. simpl.
    unfold Payment.isOverdue. simpl. rewrite andb_false_r. reflexivity.
Qed.

(** A customer who used 300 of 500 units, billed at 0.18. *)
Lemma pay_total_owed_in_full_witness :
  let c := snd (Customer.useEnergy 300
                  (Customer.new 1001 "Jane Smith" "Ontario" "jsmith@email.com"
                     "12 Walker Rd, Ontario" SOLAR 500)) in
  let billed := Customer.createBill 0 0.18 c in
  let c' := snd (Customer.makePayment 0 (Customer.getTotalOwed billed) billed) in
  fst (Customer.makePayment 0 (Customer.getTotalOwed billed) billed) = true /\
  Customer.getTotalOwed billed = 54%float /\
  Customer.getTotalOwed c' = 0%float /\
  Customer.hasOverdue (31 * 86400) c' = false.
Proof.
  intros c billed c'.
  destruct (pay_total_owed_in_full 0 0.18 c eq_refl) as (Hok & Hpaid & _).
  assert (H : fst (Customer.makePayment 0 (Customer.getTotalOwed billed) billed) = true)
    by (apply Hok; reflexivity).
  destruct (Hpaid H) as (_ & Hzero & Hnever).
  split; [exact H|]. split; [reflexivity|]. split; [exact Hzero | apply Hnever].
Defined.

(** ** The history of a customer *)

Lemma mutation_keeps_history (c c' : Customer.t) :
  mutation c c' ->
  (forall i p, Customer.payments c !! i = Some p ->
     exists p', Customer.payments c' !! i = Some p' /\
       Payment.amount p' = Payment.amount p /\ Payment.date p' = Payment.date p /\
       (Payment.isPaid p = true -> Payment.isPaid p' = true)) /\
  Customer.maintenance c `prefix_of` Customer.maintenance c' /\
  same_person c c'.
Proof.
  assert (Hkeep : forall x y, Customer.payments y = Customer.payments x ->
            forall i p, Customer.payments x !! i = Some p ->
              exists p', Customer.payments y !! i = Some p' /\
                Payment.amount p' = Payment.amount p /\ Payment.date p' = Payment.date p /\
                (Payment.isPaid p = true -> Payment.isPaid p' = true)).
  { intros x y -> i p Hp. exists p. auto. }
  destruct 1 as [amt c|now rate c|index amt c|now d k c|fd fx now c].
  - unfold Customer.useEnergy. destruct (_ <=? _)%float; simpl;
      (split; [apply Hkeep; reflexivity | split; [reflexivity | (unfold same_person; repeat split; reflexivity)]]).
  - split; [|split; [reflexivity | (unfold same_person; repeat split; reflexivity)]].
    intros i p Hp. exists p. split; [|auto].
    simpl. apply lookup_app_l_Some. exact Hp.
  - destruct (makePayment_cases index amt c) as [(q & _ & Hq & _ & ->)|[-> _]]; simpl.
    2:{ split; [apply Hkeep; reflexivity | split; [reflexivity | (unfold same_person; repeat split; reflexivity)]]. }
    split; [|split; [reflexivity | (unfold same_person; repeat split; reflexivity)]].
    intros i p Hp. destruct (decide (i = Z.to_nat index)) as [->|Hne].
    + assert (q = p) by congruence. subst q. eexists. split.
      * apply list_lookup_insert_eq. apply lookup_lt_Some in Hp. exact Hp.
      * simpl. auto.
    + exists p. split; [|auto]. rewrite list_lookup_insert_ne by congruence. exact Hp.
  - split; [apply Hkeep; reflexivity|]. split; [|(unfold same_person; repeat split; reflexivity)].
    simpl. apply prefix_app_r. reflexivity.
  - destruct (sendReminder_cases fd fx now c) as [(_ & _ & ->)|[_ ->]]; simpl;
      (split; [apply Hkeep; reflexivity | split; [reflexivity | (unfold same_person; repeat split; reflexivity)]]).
Qed.

(** Whatever public methods are called on a customer, in whatever order and
    number: no bill is ever removed or moved, no amount or date of a bill
    changes, a paid bill stays paid, maintenance records are only appended,
    and the id, name, province, email, address, energy type and allocation
    stay what the constructor made them. *)
Theorem history_is_append_only (c c' : Customer.t) :
  rtc mutation c c' ->
  (forall i p, Customer.payments c !! i = Some p ->
     exists p', Customer.payments c' !! i = Some p' /\
       Payment.amount p' = Payment.amount p /\ Payment.date p' = Payment.date p /\
       (Payment.isPaid p = true -> Payment.isPaid p' = true)) /\
  (length (Customer.payments c) <= length (Customer.payments c'))%nat /\
  Customer.maintenance c `prefix_of` Customer.maintenance c' /\
  same_person c c'.
Proof.
  induction 1 as [c|c c1 c2 Hstep _ IH].
  - split; [eauto|]. split; [lia|]. split; [reflexivity|]. unfold same_person. tauto.
  - destruct (mutation_keeps_history c c1 Hstep) as (Hb1 & Hm1 & Hi1).
    destruct IH as (Hb2 & Hl2 & Hm2 & Hi2).
    assert (Hb : forall i p, Customer.payments c !! i = Some p ->
              exists p', Customer.payments c2 !! i = Some p' /\
                Payment.amount p' = Payment.amount p /\ Payment.date p' = Payment.date p /\
                (Payment.isPaid p = true -> Payment.isPaid p' = true)).
    { intros i p Hp. destruct (Hb1 i p Hp) as (p1 & Hp1 & Ha1 & Hd1 & Hpaid1).
      destruct (Hb2 i p1 Hp1) as (p2 & Hp2 & Ha2 & Hd2 & Hpaid2).
      exists p2. split; [exact Hp2|]. split; [congruence|]. split; [congruence | auto]. }
    split; [exact Hb|]. split.
    + destruct (Nat.eq_dec (length (Customer.payments c)) 0%nat) as [E|E]; [lia|].
      destruct (lookup_lt_is_Some_2 (Customer.payments c)
                  (length (Customer.payments c) - 1)%nat) as [p Hp]; [lia|].
      destruct (Hb _ _ Hp) as (p' & Hp' & _). apply lookup_lt_Some in Hp'. lia.
    + split; [etransitivity; eassumption|].
      unfold same_person in *. intuition congruence.
Qed.

(** A customer is billed, reminded after 31 days, and then pays. *)
Lemma history_is_append_only_witness :
  let c := snd (Customer.useEnergy 300
                  (Customer.new 1001 "Jane Smith" "Ontario" "jsmith@email.com"
                     "12 Walker Rd, Ontario" SOLAR 500)) in
  let c1 := Customer.createBill 0 0.18 c in
  let c2 := snd (Customer.sendReminder (fun _ => "1970-01-01") (fun _ => "54.00")
                   (31 * 86400) c1) in
  let c3 := snd (Customer.makePayment 0 54 c2) in
  Customer.payments c1 !! 0%nat
    = Some {| Payment.amount := 54; Payment.date := 0; Payment.isPaid := false |} /\
  exists p', Customer.payments c3 !! 0%nat = Some p' /\
    Payment.amount p' = 54%float /\ Payment.date p' = 0 /\ Payment.isPaid p' = true.
Proof.
  intros c c1 c2 c3. split; [reflexivity|].
  assert (Hrtc : rtc mutation c1 c3).
  { apply (rtc_l _ _ c2); [apply by_sendReminder|].
    apply rtc_once. apply by_makePayment. }
  destruct (history_is_append_only c1 c3 Hrtc) as (Hbills & _).
  destruct (Hbills 0%nat _ eq_refl) as (p' & Hp' & Ha & Hd & _).
  exists p'. split; [exact Hp'|]. split; [exact Ha|]. split; [exact Hd|].
  vm_compute in Hp'. injection Hp' as <-. reflexivity.
Defined.

(** ** The province index *)

Lemma combine_seq_snoc {A} (l : list A) (x : A) (a : nat) :
  combine (seq a (length (l ++ [x]))) (l ++ [x])
  = combine (seq a (length l)) l ++ [((a + length l)%nat, x)].
Proof.
  revert a. induction l as [|y l IH]; intros a; simpl.
  - rewrite Nat.add_0_r. reflexivity.
  - rewrite IH. replace (S a + length l)%nat with (a + S (length l))%nat by lia.
    reflexivity.
Qed.

Lemma bucketOf_snoc (prov : string) (cs : list Customer.t) (c : Customer.t) :
  bucketOf prov (cs ++ [c])
  = bucketOf prov cs
    ++ (if String.eqb (Customer.province c) prov then [Z.of_nat (length cs)] else []).
Proof.
  unfold bucketOf. rewrite combine_seq_snoc, List.filter_app, map_app. simpl.
  destruct (String.eqb (Customer.province c) prov); reflexivity.
Qed.

Lemma bucketOf_In (prov : string) (cs : list Customer.t) (idx : Z) :
  In idx (bucketOf prov cs) <->
  exists i c, idx = Z.of_nat i /\ cs !! i = Some c /\ Customer.province c = prov.
Proof.
  induction cs as [|c cs IH] using rev_ind.
  - simpl. split; [intros [] | intros (i & c & _ & H & _); discriminate].
  - rewrite bucketOf_snoc, in_app_iff, IH. split.
    + intros [(i & c' & -> & Hc & Hp)|Hin].
      * exists i, c'. split; [reflexivity|]. split; [|exact Hp].
        apply lookup_app_l_Some. exact Hc.
      * destruct (String.eqb_spec (Customer.province c) prov) as [Hp|Hp]; [|destruct Hin].
        destruct Hin as [<-|[]]. exists (length cs), c. split; [reflexivity|].
        split; [|exact Hp]. rewrite lookup_app_r by lia. rewrite Nat.sub_diag. reflexivity.
    + intros (i & c' & -> & Hc & Hp).
      destruct (decide (i < length cs)%nat) as [Hlt|Hge].
      * left. exists i, c'. split; [reflexivity|]. split; [|exact Hp].
        rewrite lookup_app_l in Hc by exact Hlt. exact Hc.
      * right. rewrite lookup_app_r in Hc by lia.
        destruct (i - length cs)%nat as [|k] eqn:Hk; [|destruct k; discriminate].
        injection Hc as <-. apply String.eqb_eq in Hp. rewrite Hp.
        left. f_equal. lia.
Qed.

Lemma bucketOf_map (prov : string) (f : Customer.t -> Customer.t) (cs : list Customer.t) :
  (forall c, Customer.province (f c) = Customer.province c) ->
  bucketOf prov (map f cs) = bucketOf prov cs.
Proof.
  intros Hf. induction cs as [|c cs IH] using rev_ind; [reflexivity|].
  rewrite map_app. simpl. rewrite !bucketOf_snoc, IH, Hf, length_map. reflexivity.
Qed.

Lemma sorted_snoc (l : list Z) (x : Z) :
  StronglySorted Z.lt l -> (forall y, In y l -> y < x) ->
  StronglySorted Z.lt (l ++ [x]).
Proof.
  induction 1 as [|y l Hs IH Hall]; intros Hlt; simpl.
  - repeat constructor.
  - constructor.
    + apply IH. intros z Hz. apply Hlt. right. exact Hz.
    + apply List.Forall_app. split; [exact Hall|].
      constructor; [|constructor]. apply Hlt. left. reflexivity.
Qed.

Lemma bucketOf_sorted (prov : string) (cs : list Customer.t) :
  StronglySorted Z.lt (bucketOf prov cs).
Proof.
  induction cs as [|c cs IH] using rev_ind; [constructor|].
  rewrite bucketOf_snoc.
  destruct (String.eqb (Customer.province c) prov); [|rewrite app_nil_r; exact IH].
  apply sorted_snoc; [exact IH|].
  intros y Hy. apply bucketOf_In in Hy as (i & c' & -> & Hc & _).
  apply lookup_lt_Some in Hc. lia.
Qed.

Lemma billOne_province (now : Z) (rates : EnergyType -> float) (c : Customer.t) :
  Customer.province (EnergySystem.billOne now rates c) = Customer.province c.
Proof.
  destruct (billOne_cases now rates c) as [[_ ->]|[_ ->]]; reflexivity.
Qed.

Lemma remindOne_province (formatDate : Z -> string) (fixed2 : float -> string)
    (now : Z) (c : Customer.t) :
  Customer.province (snd (EnergySystem.remindOne formatDate fixed2 now c))
  = Customer.province c.
Proof.
  unfold EnergySystem.remindOne. simpl.
  destruct (sendReminder_cases formatDate fixed2 now c) as [(_ & _ & ->)|[_ ->]];
    reflexivity.
Qed.

Lemma reachable_index (sys : EnergySystem.t) :
  EnergySystem.reachable sys ->
  forall prov,
    default [] (EnergySystem.provinces sys !! prov)
    = bucketOf prov (EnergySystem.customers sys) /\
    EnergySystem.provinces sys !! prov <> Some [].
Proof.
  induction 1 as [|c sys Hr IH|now sys Hr IH|fd fx now sys Hr IH]; intros prov.
  - split; [reflexivity | discriminate].
  - destruct (IH prov) as [Hb Hne]. unfold EnergySystem.addCustomer. simpl.
    rewrite bucketOf_snoc, length_app. simpl.
    destruct (String.eqb_spec (Customer.province c) prov) as [->|Hp].
    + rewrite lookup_insert_eq. simpl. rewrite Hb. split.
      * repeat f_equal. lia.
      * intros H. injection H as H. apply app_eq_nil in H as [_ H]. discriminate.
    + rewrite lookup_insert_ne by exact Hp. rewrite app_nil_r. auto.
  - simpl. rewrite bucketOf_map by apply billOne_province. apply IH.
  - simpl. rewrite map_map, bucketOf_map by apply remindOne_province. apply IH.
Qed.

(** The province index agrees with the customers, in every directory the
    program can hold: the bucket of a province lists, in increasing order
    and each once, exactly the positions of the customers of that province;
    a province has a bucket exactly when it has a customer; so every customer
    is in one bucket, that of its province. *)
Theorem province_index_is_consistent (sys : EnergySystem.t) :
  EnergySystem.reachable sys ->
  (forall prov ids, EnergySystem.provinces sys !! prov = Some ids ->
     ids = bucketOf prov (EnergySystem.customers sys) /\ ids <> [] /\
     StronglySorted Z.lt ids /\
     forall idx, In idx ids <->
       exists i c, idx = Z.of_nat i /\ EnergySystem.customers sys !! i = Some c /\
                   Customer.province c = prov) /\
  (forall prov, EnergySystem.provinces sys !! prov = None <->
     forall c, In c (EnergySystem.customers sys) -> Customer.province c <> prov) /\
  (forall i c, EnergySystem.customers sys !! i = Some c ->
     exists ids, EnergySystem.provinces sys !! Customer.province c = Some ids /\
                 In (Z.of_nat i) ids).
Proof.
  intros Hr.
  assert (Hsome : forall prov ids, EnergySystem.provinces sys !! prov = Some ids ->
            ids = bucketOf prov (EnergySystem.customers sys) /\ ids <> []).
  { intros prov ids Hids. destruct (reachable_index sys Hr prov) as [Hb Hne].
    rewrite Hids in Hb, Hne. simpl in Hb. split; [exact Hb | congruence]. }
  assert (Hmem : forall i c, EnergySystem.customers sys !! i = Some c ->
            In (Z.of_nat i) (bucketOf (Customer.province c) (EnergySystem.customers sys))).
  { intros i c Hc. apply bucketOf_In. eauto. }
  split; [|split].
  - intros prov ids Hids. destruct (Hsome prov ids Hids) as [-> Hne].
    split; [reflexivity|]. split; [exact Hne|].
    split; [apply bucketOf_sorted | apply bucketOf_In].
  - intros prov. split.
    + intros Hnone c Hin Hp. apply list_elem_of_In, list_elem_of_lookup in Hin as [i Hc].
      pose proof (Hmem i c Hc) as H. rewrite Hp in H.
      destruct (reachable_index sys Hr prov) as [Hb _]. rewrite Hnone in Hb.
      simpl in Hb. rewrite <- Hb in H. destruct H.
    + intros Hno. destruct (EnergySystem.provinces sys !! prov) as [ids|] eqn:Hids;
        [|reflexivity].
      destruct (Hsome prov ids Hids) as [-> Hne].
      destruct (bucketOf prov (EnergySystem.customers sys)) as [|idx rest] eqn:Hb;
        [contradiction|].
      assert (Hin : In idx (bucketOf prov (EnergySystem.customers sys)))
        by (rewrite Hb; left; reflexivity).
      apply bucketOf_In in Hin as (i & c & _ & Hc & Hp).
      destruct (Hno c); [|exact Hp].
      apply list_elem_of_In, list_elem_of_lookup. eauto.
  - intros i c Hc. pose proof (Hmem i c Hc) as H.
    destruct (reachable_index sys Hr (Customer.province c)) as [Hb _].
    destruct (EnergySystem.provinces sys !! Customer.province c) as [ids|] eqn:Hids.
    + exists ids. split; [reflexivity|]. simpl in Hb. rewrite Hb. exact H.
    + simpl in Hb. rewrite <- Hb in H. destruct H.
Qed.

(** The directory of two customers of Ontario and one of Quebec, after a
    billing run. *)
Lemma province_index_is_consistent_witness :
  let a := Customer.new 1001 "Jane Smith" "Ontario" "jsmith@email.com"
             "12 Walker Rd, Ontario" SOLAR 500 in
  let b := Customer.new 1002 "Mike Jones" "Quebec" "mjones@email.com"
             "7 Howard Ave, Quebec" NUCLEAR 400 in
  let c := Customer.new 1003 "Emily Brown" "Ontario" "ebrown@email.com"
             "9 Lauzon Rd, Ontario" SOLAR 300 in
  let sys := EnergySystem.doBilling 0
               (EnergySystem.addCustomer c
                  (EnergySystem.addCustomer b
                     (EnergySystem.addCustomer a EnergySystem.new))) in
  EnergySystem.provinces sys !! "Ontario" = Some [0; 2] /\
  [0; 2] = bucketOf "Ontario" (EnergySystem.customers sys) /\
  EnergySystem.provinces sys !! "Alberta" = None.
Proof.
  intros a b c sys.
  assert (Hr : EnergySystem.reachable sys)
    by (repeat constructor).
  assert (Hon : EnergySystem.provinces sys !! "Ontario" = Some [0; 2])
    by (vm_compute; reflexivity).
  destruct (province_index_is_consistent sys Hr) as (Hsome & _ & _).
  destruct (Hsome "Ontario" [0; 2] Hon) as (Hb & _).
  split; [exact Hon|]. split; [exact Hb|]. vm_compute. reflexivity.
Defined.

(** ** EnergySystem::getOverdueCustomers and the overdue counts *)

Lemma overdueLoop_results (now : Z) (cs : list Customer.t) (i : nat) (results : list nat) :
  EnergySystem.overdueLoop now cs i results
  = results ++ EnergySystem.overdueLoop now cs i [].
Proof.
  revert i results. induction cs as [|c cs IH]; intros i results; simpl.
  - rewrite app_nil_r. reflexivity.
  - destruct (Customer.hasOverdue now c); [|apply IH].
    rewrite (IH (S i) (results ++ [i])), (IH (S i) [i]).
    rewrite <- app_assoc. reflexivity.
Qed.

Lemma overdueLoop_In (now : Z) (cs : list Customer.t) (i k : nat) :
  In k (EnergySystem.overdueLoop now cs i []) <->
  (i <= k)%nat /\ exists c, cs !! (k - i)%nat = Some c /\ Customer.hasOverdue now c = true.
Proof.
  revert i. induction cs as [|c cs IH]; intros i.
  - simpl. split; [intros [] | intros [_ (c & Hc & _)]; discriminate].
  - assert (Htail : In k (EnergySystem.overdueLoop now cs (S i) []) <->
                    (i < k)%nat /\ exists c', (c :: cs) !! (k - i)%nat = Some c'
                                               /\ Customer.hasOverdue now c' = true).
    { rewrite IH. split.
      - intros [Hk (c' & Hc' & Hs)]. split; [lia|]. exists c'. split; [|exact Hs].
        replace (k - i)%nat with (S (k - S i)) by lia. exact Hc'.
      - intros [Hk (c' & Hc' & Hs)]. split; [lia|]. exists c'. split; [|exact Hs].
        replace (k - i)%nat with (S (k - S i)) in Hc' by lia. exact Hc'. }
    simpl EnergySystem.overdueLoop. destruct (Customer.hasOverdue now c) eqn:Hod.
    + rewrite overdueLoop_results, in_app_iff, Htail. simpl. split.
      * intros [[<-|[]]|[Hk H]].
        -- split; [lia|]. exists c. rewrite Nat.sub_diag. auto.
        -- split; [lia | exact H].
      * intros [Hk (c' & Hc' & Hs)]. destruct (decide (k = i)) as [->|Hne].
        -- left. left. reflexivity.
        -- right. split; [lia | eauto].
    + rewrite Htail. split.
      * intros [Hk H]. split; [lia | exact H].
      * intros [Hk (c' & Hc' & Hs)]. split; [|eauto].
        destruct (decide (k = i)) as [->|Hne]; [|lia].
        rewrite Nat.sub_diag in Hc'. simpl in Hc'. congruence.
Qed.

Lemma overdueLoop_sorted (now : Z) (cs : list Customer.t) (i : nat) :
  StronglySorted lt (EnergySystem.overdueLoop now cs i []).
Proof.
  revert i. induction cs as [|c cs IH]; intros i; simpl.
  - constructor.
  - destruct (Customer.hasOverdue now c); [|apply IH].
    rewrite overdueLoop_results. simpl. constructor; [apply IH|].
    apply List.Forall_forall. intros k Hk. apply overdueLoop_In in Hk as [Hk _]. lia.
Qed.

Lemma overdueCount_from (now : Z) (cs : list Customer.t) (n : Z) :
  fold_left (fun n c => if Customer.hasOverdue now c then n + 1 else n) cs n
  = n + Z.of_nat (length (List.filter (Customer.hasOverdue now) cs)).
Proof.
  revert n. induction cs as [|c cs IH]; intros n; simpl; [lia|].
  rewrite IH. destruct (Customer.hasOverdue now c); simpl; lia.
Qed.

Lemma overdueLoop_length (now : Z) (cs : list Customer.t) (i : nat) :
  length (EnergySystem.overdueLoop now cs i [])
  = length (List.filter (Customer.hasOverdue now) cs).
Proof.
  revert i. induction cs as [|c cs IH]; intros i; simpl; [reflexivity|].
  destruct (Customer.hasOverdue now c); [|apply IH].
  rewrite overdueLoop_results, length_app, IH. reflexivity.
Qed.

Lemma statsOverdue_count (now : Z) (cs : list Customer.t) (acc : Z * float) :
  fst (fold_left
         (fun acc c =>
            if Customer.hasOverdue now c
            then (fst acc + 1, (snd acc + Customer.getTotalOwed c)%float)
            else acc) cs acc)
  = fst acc + Z.of_nat (length (List.filter (Customer.hasOverdue now) cs)).
Proof.
  revert acc. induction cs as [|c cs IH]; intros acc; simpl; [lia|].
  rewrite IH. destruct (Customer.hasOverdue now c); simpl; lia.
Qed.

(** [getOverdueCustomers] returns the positions of exactly the customers
    that have an overdue bill at the time of the call, each once, in the
    order of insertion; the overdue count of the monthly report and the one
    of the statistics are both the length of that list; and with no overdue
    customer the list is empty, the counts are 0 and the overdue amount of
    the statistics is 0. *)
Theorem getOverdueCustomers_lists_the_overdue (now : Z) (sys : EnergySystem.t) :
  let listed := EnergySystem.getOverdueCustomers now sys in
  StronglySorted lt listed /\
  (forall i, In i listed <->
     exists c, EnergySystem.customers sys !! i = Some c /\
               Customer.hasOverdue now c = true) /\
  EnergySystem.overdueCount now (EnergySystem.customers sys) = Z.of_nat (length listed) /\
  fst (EnergySystem.statsOverdue now (EnergySystem.customers sys))
    = Z.of_nat (length listed) /\
  ((forall c, In c (EnergySystem.customers sys) -> Customer.hasOverdue now c = false) ->
     listed = [] /\
     EnergySystem.statsOverdue now (EnergySystem.customers sys) = (0, 0%float)).
Proof.
  unfold EnergySystem.getOverdueCustomers. simpl.
  split; [apply overdueLoop_sorted|]. split; [|split; [|split]].
  - intros i. rewrite overdueLoop_In, Nat.sub_0_r. split.
    + intros [_ H]. exact H.
    + intros H. split; [lia | exact H].
  - unfold EnergySystem.overdueCount. rewrite overdueCount_from, overdueLoop_length. lia.
  - unfold EnergySystem.statsOverdue. rewrite statsOverdue_count, overdueLoop_length.
    simpl. lia.
  - intros Hnone. split.
    + destruct (EnergySystem.overdueLoop now (EnergySystem.customers sys) 0 [])
        as [|k rest] eqn:Hl; [reflexivity|].
      assert (Hin : In k (EnergySystem.overdueLoop now (EnergySystem.customers sys) 0 []))
        by (rewrite Hl; left; reflexivity).
      apply overdueLoop_In in Hin as [_ (c & Hc & Ho)].
      rewrite Hnone in Ho; [discriminate|].
      apply list_elem_of_In, list_elem_of_lookup. eauto.
    + unfold EnergySystem.statsOverdue.
      generalize (0, 0%float). revert Hnone.
      induction (EnergySystem.customers sys) as [|c cs IH]; intros Hnone acc; simpl.
      * reflexivity.
      * rewrite (Hnone c) by (left; reflexivity). apply IH.
        intros c' Hc'. apply Hnone. right. exact Hc'.
Qed.

(** ** EnergySystem::sendReminders *)

Section SendRemindersFacts.

Variable formatDate : Z -> string.
Variable fixed2 : float -> string.

Local Abbreviation remindOne := (EnergySystem.remindOne formatDate fixed2).
Local Abbreviation sendReminders := (EnergySystem.sendReminders formatDate fixed2).

(** The two outcomes of one turn of the loop. *)
Lemma remindOne_cases (now : Z) (c : Customer.t) :
  (Customer.hasOverdue now c = true /\ Customer.reminderSent c = false /\
   remindOne now c
   = (["Sent reminder to " +:+ Customer.name c +:+ " (ID: "
       +:+ to_string (Customer.id c) +:+ ")" +:+ nl],
      Customer.set_reminderSent true c))
  \/ (~ (Customer.hasOverdue now c = true /\ Customer.reminderSent c = false) /\
      remindOne now c = ([], c)).
Proof.
  unfold EnergySystem.remindOne.
  destruct (sendReminder_cases formatDate fixed2 now c) as [(Ho & Hs & ->)|[Hn ->]].
  - left. split; [exact Ho|]. split; [exact Hs|]. reflexivity.
  - right. split; [exact Hn | reflexivity].
Qed.

Lemma remindOne_again (now : Z) (c : Customer.t) :
  remindOne now (snd (remindOne now c)) = ([], snd (remindOne now c)).
Proof.
  destruct (remindOne_cases now c) as [(_ & _ & ->)|[Hn ->]]; simpl.
  - destruct (remindOne_cases now (Customer.set_reminderSent true c))
      as [(_ & Hs & _)|[_ H]]; [discriminate | exact H].
  - destruct (remindOne_cases now c) as [(Ho & Hs & _)|[_ H]]; [|exact H].
    destruct Hn. auto.
Qed.

Lemma remindOne_snd (now : Z) (c : Customer.t) :
  snd (remindOne now c)
  = Customer.set_reminderSent (Customer.reminderSent c || Customer.hasOverdue now c) c.
Proof.
  destruct (remindOne_cases now c) as [(Ho & Hs & ->)|[Hn ->]]; simpl.
  - rewrite Ho, Hs. reflexivity.
  - destruct c as [? ? ? ? ? ? ? ? ? latch ?]. simpl in *.
    destruct latch; [reflexivity|].
    destruct (Customer.hasOverdue now _) eqn:Ho; [|reflexivity].
    destruct Hn. auto.
Qed.

Lemma remindOne_fst (now : Z) (c : Customer.t) :
  length (fst (remindOne now c))
  = if Customer.hasOverdue now c && negb (Customer.reminderSent c) then 1%nat else 0%nat.
Proof.
  destruct (remindOne_cases now c) as [(Ho & Hs & ->)|[Hn ->]]; simpl.
  - rewrite Ho, Hs. reflexivity.
  - destruct (Customer.hasOverdue now c), (Customer.reminderSent c); simpl;
      try reflexivity. destruct Hn. auto.
Qed.

(** The loop of [energyprovider.cxx], which tests [hasOverdueBills()] first,
    does in each turn what the later loop does. *)
Lemma remindOneOlder_same (now : Z) (c : Customer.t) :
  EnergySystem.remindOneOlder formatDate fixed2 now c = remindOne now c.
Proof.
  unfold EnergySystem.remindOneOlder.
  destruct (Customer.hasOverdue now c) eqn:Ho; [reflexivity|].
  destruct (remindOne_cases now c) as [(Ho' & _)|[_ ->]]; [congruence | reflexivity].
Qed.

(** [sendReminders] prints one line for each customer that has an overdue
    bill and a clear latch, sets the latch of exactly those customers, and
    touches nothing else: the customers stay in place with their bills, usage
    and identity, and the index, the catalog and the trades are as before.
    Run again at the same time it prints nothing and changes nothing.  The
    loop of the older file, which asks [hasOverdueBills()] before each
    [sendReminder()], prints the same lines and leaves the same directory. *)
Theorem sendReminders_reminds_once (now : Z) (sys : EnergySystem.t) :
  let lines := fst (sendReminders now sys) in
  let sys' := snd (sendReminders now sys) in
  length lines
    = length (List.filter
                (fun c => Customer.hasOverdue now c && negb (Customer.reminderSent c))
                (EnergySystem.customers sys)) /\
  length (EnergySystem.customers sys') = length (EnergySystem.customers sys) /\
  (forall i c, EnergySystem.customers sys !! i = Some c ->
     exists c', EnergySystem.customers sys' !! i = Some c' /\
       c' = Customer.set_reminderSent
              (Customer.reminderSent c || Customer.hasOverdue now c) c) /\
  EnergySystem.provinces sys' = EnergySystem.provinces sys /\
  EnergySystem.rates sys' = EnergySystem.rates sys /\
  EnergySystem.trades sys' = EnergySystem.trades sys /\
  sendReminders now sys' = ([], sys') /\
  EnergySystem.sendRemindersOlder formatDate fixed2 now sys = sendReminders now sys.
Proof.
  unfold EnergySystem.sendReminders, EnergySystem.sendRemindersOlder. simpl.
  split; [|split; [|split; [|split; [|split; [|split; [|split]]]]]];
    try reflexivity.
  - induction (EnergySystem.customers sys) as [|c cs IH]; [reflexivity|].
    cbn [map concat List.filter]. rewrite length_app, IH, remindOne_fst.
    destruct (Customer.hasOverdue now c && negb (Customer.reminderSent c));
      reflexivity.
  - rewrite !length_map. reflexivity.
  - intros i c Hc. exists (snd (remindOne now c)). split.
    + rewrite map_map, list_lookup_fmap, Hc. reflexivity.
    + apply remindOne_snd.
  - unfold EnergySystem.set_customers. simpl.
    assert (Hagain : forall cs,
              map (remindOne now) (map snd (map (remindOne now) cs))
              = map (fun c => ([], c)) (map snd (map (remindOne now) cs))).
    { induction cs as [|c cs IH]; [reflexivity|].
      cbn [map]. rewrite IH, remindOne_again. reflexivity. }
    rewrite Hagain.
    assert (Hfst : forall cs : list Customer.t,
              concat (map fst (map (fun c => (@nil string, c)) cs)) = [])
      by (induction cs; simpl; auto).
    assert (Hsnd : forall cs : list Customer.t,
              map snd (map (fun c => (@nil string, c)) cs) = cs)
      by (induction cs as [|c cs IH]; simpl; [|rewrite IH]; reflexivity).
    rewrite Hfst, Hsnd. reflexivity.
  - assert (Hmap : map (EnergySystem.remindOneOlder formatDate fixed2 now)
                     (EnergySystem.customers sys)
                   = map (remindOne now) (EnergySystem.customers sys)).
    { apply map_ext. intros c. apply remindOneOlder_same. }
    rewrite Hmap. reflexivity.
Qed.

End SendRemindersFacts.

(** ** EnergySystem::doBilling, runs and overdue bills *)

Lemma billOne_twice (now later : Z) (rates rates' : EnergyType -> float) (c : Customer.t) :
  EnergySystem.billOne later rates' (EnergySystem.billOne now rates c)
  = EnergySystem.billOne now rates c.
Proof.
  pose proof (billOne_not_positive now rates c) as H.
  destruct (billOne_cases later rates' (EnergySystem.billOne now rates c))
    as [[Hpos _]|[_ ->]]; [congruence | reflexivity].
Qed.

Lemma billOne_overdue (now query : Z) (rates : EnergyType -> float) (c : Customer.t) :
  query < now + 2678400 ->
  Customer.hasOverdue query (EnergySystem.billOne now rates c)
  = Customer.hasOverdue query c.
Proof.
  intros Hq. destruct (billOne_cases now rates c) as [[_ ->]|[_ ->]]; [|reflexivity].
  destruct (Customer.hasOverdue query c) eqn:Ho.
  - apply hasOverdue_seconds in Ho as (p & Hin & Hu & Hd).
    apply hasOverdue_seconds. exists p. split; [|auto].
    simpl. apply in_app_iff. left. exact Hin.
  - destruct (Customer.hasOverdue query (Customer.createBill now _ c)) eqn:Ho';
      [|reflexivity].
    apply hasOverdue_seconds in Ho' as (p & Hin & Hu & Hd).
    simpl in Hin. apply in_app_iff in Hin as [Hin|[<-|[]]].
    + assert (Customer.hasOverdue query c = true)
        by (apply hasOverdue_seconds; eauto). congruence.
    + simpl in Hd. lia.
Qed.

(** A billing run leaves nothing for the next one: a second [doBilling], at
    whatever time, issues no bill and returns the directory of the first.
    The bills of a run are not overdue before 31 days have passed since the
    run, so until then the run changes neither which customers are overdue
    nor the overdue counts. *)
Theorem doBilling_run_twice (now later query : Z) (sys : EnergySystem.t) :
  EnergySystem.doBilling later (EnergySystem.doBilling now sys)
    = EnergySystem.doBilling now sys /\
  (query < now + 2678400 ->
     EnergySystem.getOverdueCustomers query (EnergySystem.doBilling now sys)
       = EnergySystem.getOverdueCustomers query sys /\
     EnergySystem.overdueCount query
         (EnergySystem.customers (EnergySystem.doBilling now sys))
       = EnergySystem.overdueCount query (EnergySystem.customers sys)).
Proof.
  split.
  - unfold EnergySystem.doBilling, EnergySystem.set_customers. simpl.
    rewrite map_map. f_equal. apply map_ext. intros c. apply billOne_twice.
  - intros Hq.
    assert (Hloop : forall cs i results,
              EnergySystem.overdueLoop query
                (map (EnergySystem.billOne now (EnergySystem.rates sys)) cs) i results
              = EnergySystem.overdueLoop query cs i results).
    { induction cs as [|c cs IH]; intros i results; simpl; [reflexivity|].
      rewrite (billOne_overdue now query _ c Hq), !IH. reflexivity. }
    split.
    + unfold EnergySystem.getOverdueCustomers. simpl. apply Hloop.
    + unfold EnergySystem.overdueCount. simpl. generalize 0.
      induction (EnergySystem.customers sys) as [|c cs IH]; intros n; simpl;
        [reflexivity|].
      rewrite (billOne_overdue now query _ c Hq). apply IH.
Qed.

(** ** The import/export summaries of createMonthlyReport and showStats *)

Lemma reportTrades_snoc (ts : list ImportExport.t) (r : ImportExport.t) :
  EnergySystem.reportTrades (ts ++ [r])
  = EnergySystem.tradeStep (EnergySystem.reportTrades ts) r.
Proof. unfold EnergySystem.reportTrades. rewrite fold_left_app. reflexivity. Qed.

Lemma bump_is_Some (m : EnergyType -> option float) (ty k : EnergyType) (v : float) :
  is_Some (EnergySystem.bump m ty v k) <-> k = ty \/ is_Some (m k).
Proof.
  unfold EnergySystem.bump. destruct (decide (k = ty)) as [->|Hne].
  - split; [auto | intros _; eexists; reflexivity].
  - split; [auto | intros [H|H]; [contradiction | exact H]].
Qed.

Lemma report_totals_are_stats (ts : list ImportExport.t) :
  (EnergySystem.imports (EnergySystem.reportTrades ts),
   EnergySystem.exports (EnergySystem.reportTrades ts))
  = EnergySystem.statsTrades ts.
Proof.
  induction ts as [|r ts IH] using rev_ind; [reflexivity|].
  rewrite reportTrades_snoc. unfold EnergySystem.statsTrades.
  rewrite fold_left_app. fold (EnergySystem.statsTrades ts). rewrite <- IH.
  unfold EnergySystem.tradeStep. simpl.
  destruct (ImportExport.isImport r); reflexivity.
Qed.

Lemma byType_keys (ts : list ImportExport.t) (ty : EnergyType) :
  (is_Some (EnergySystem.importsByType (EnergySystem.reportTrades ts) ty) <->
   exists r, In r ts /\ ImportExport.isImport r = true /\ ImportExport.type r = ty) /\
  (is_Some (EnergySystem.exportsByType (EnergySystem.reportTrades ts) ty) <->
   exists r, In r ts /\ ImportExport.isImport r = false /\ ImportExport.type r = ty).
Proof.
  induction ts as [|r ts [IHi IHe]] using rev_ind.
  - split; (split; [intros [x Hx]; discriminate | intros (r & [] & _)]).
  - rewrite reportTrades_snoc. unfold EnergySystem.tradeStep.
    destruct (ImportExport.isImport r) eqn:Hr; simpl; split.
    + rewrite bump_is_Some, IHi. split.
      * intros [->|(x & Hin & Hx)].
        -- exists r. rewrite in_app_iff. simpl. auto.
        -- exists x. rewrite in_app_iff. auto.
      * intros (x & Hin & Hi & Ht). apply in_app_iff in Hin as [Hin|[<-|[]]].
        -- right. exists x. auto.
        -- left. symmetry. exact Ht.
    + rewrite IHe. split.
      * intros (x & Hin & Hx). exists x. rewrite in_app_iff. auto.
      * intros (x & Hin & Hi & Ht). apply in_app_iff in Hin as [Hin|[<-|[]]].
        -- exists x. auto.
        -- congruence.
    + rewrite IHi. split.
      * intros (x & Hin & Hx). exists x. rewrite in_app_iff. auto.
      * intros (x & Hin & Hi & Ht). apply in_app_iff in Hin as [Hin|[<-|[]]].
        -- exists x. auto.
        -- congruence.
    + rewrite bump_is_Some, IHe. split.
      * intros [->|(x & Hin & Hx)].
        -- exists r. rewrite in_app_iff. simpl. auto.
        -- exists x. rewrite in_app_iff. auto.
      * intros (x & Hin & Hi & Ht). apply in_app_iff in Hin as [Hin|[<-|[]]].
        -- right. exists x. auto.
        -- left. symmetry. exact Ht.
Qed.

Lemma single_type_imports (ts : list ImportExport.t) (ty : EnergyType) :
  (forall r, In r ts -> ImportExport.isImport r = true -> ImportExport.type r = ty) ->
  (EnergySystem.importsByType (EnergySystem.reportTrades ts) ty = None /\
   EnergySystem.imports (EnergySystem.reportTrades ts) = 0%float)
  \/ EnergySystem.importsByType (EnergySystem.reportTrades ts) ty
     = Some (EnergySystem.imports (EnergySystem.reportTrades ts)).
Proof.
  induction ts as [|r ts IH] using rev_ind; intros Hty; [left; split; reflexivity|].
  rewrite reportTrades_snoc. unfold EnergySystem.tradeStep.
  assert (Hts : forall x, In x ts -> ImportExport.isImport x = true ->
                          ImportExport.type x = ty)
    by (intros x Hx; apply Hty; rewrite in_app_iff; auto).
  specialize (IH Hts).
  destruct (ImportExport.isImport r) eqn:Hr; simpl; [|exact IH].
  right. unfold EnergySystem.bump.
  rewrite (Hty r) by (rewrite ?in_app_iff; simpl; auto).
  destruct (decide (ty = ty)) as [_|Hne]; [|contradiction].
  destruct IH as [[-> ->]| ->]; reflexivity.
Qed.

Lemma no_exports (ts : list ImportExport.t) :
  (forall r, In r ts -> ImportExport.isImport r = true) ->
  EnergySystem.exports (EnergySystem.reportTrades ts) = 0%float /\
  forall ty, EnergySystem.exportsByType (EnergySystem.reportTrades ts) ty = None.
Proof.
  induction ts as [|r ts IH] using rev_ind; intros Hall; [split; reflexivity|].
  rewrite reportTrades_snoc. unfold EnergySystem.tradeStep.
  rewrite (Hall r) by (rewrite in_app_iff; simpl; auto). simpl.
  apply IH. intros x Hx. apply Hall. rewrite in_app_iff. auto.
Qed.

(** The import/export part of the monthly report and of the statistics, for
    every list of trades: the two loops compute the same totals, bit for bit;
    a type is listed under "Imports by Type" exactly when some import trade
    has it, and under "Exports by Type" exactly when some export trade has
    it; when all import trades are of one type and there is one, the amount
    listed for that type is the import total; and with no export trade the
    export total is 0, no export type is listed and the net balance is the
    import total. *)
Theorem trade_summary_is_consistent (ts : list ImportExport.t) (ty : EnergyType) :
  let s := EnergySystem.reportTrades ts in
  (EnergySystem.imports s, EnergySystem.exports s) = EnergySystem.statsTrades ts /\
  (In ty (map fst (EnergySystem.entries (EnergySystem.importsByType s))) <->
   exists r, In r ts /\ ImportExport.isImport r = true /\ ImportExport.type r = ty) /\
  (In ty (map fst (EnergySystem.entries (EnergySystem.exportsByType s))) <->
   exists r, In r ts /\ ImportExport.isImport r = false /\ ImportExport.type r = ty) /\
  ((forall r, In r ts -> ImportExport.isImport r = true -> ImportExport.type r = ty) ->
   (exists r, In r ts /\ ImportExport.isImport r = true) ->
   EnergySystem.entries (EnergySystem.importsByType s)
   = [(ty, EnergySystem.imports s)]) /\
  ((forall r, In r ts -> ImportExport.isImport r = true) ->
   EnergySystem.exports s = 0%float /\
   EnergySystem.entries (EnergySystem.exportsByType s) = [] /\
   EnergySystem.netBalance s = EnergySystem.imports s).
Proof.
  assert (Hentries : forall (m : EnergyType -> option float) k,
            In k (map fst (EnergySystem.entries m)) <-> is_Some (m k)).
  { intros m k. unfold EnergySystem.entries, allEnergyTypes. simpl.
    destruct (m CRUDE_OIL) eqn:H1, (m SOLAR) eqn:H2, (m NUCLEAR) eqn:H3,
      (m NATURAL_GAS) eqn:H4; destruct k; simpl; rewrite ?H1, ?H2, ?H3, ?H4;
      split; intros H; try (eexists; reflexivity); try tauto;
      try (destruct H as [x Hx]; discriminate);
      repeat (destruct H as [H|H]; try discriminate); try contradiction. }
  simpl. split; [apply report_totals_are_stats|].
  split; [rewrite Hentries; apply byType_keys|].
  split; [rewrite Hentries; apply byType_keys|].
  split.
  - intros Hty (r & Hin & Hr).
    assert (Hother : forall k, k <> ty ->
              EnergySystem.importsByType (EnergySystem.reportTrades ts) k = None).
    { intros k Hk.
      destruct (EnergySystem.importsByType (EnergySystem.reportTrades ts) k) eqn:Hm;
        [|reflexivity].
      assert (Hs : is_Some (EnergySystem.importsByType (EnergySystem.reportTrades ts) k))
        by (rewrite Hm; eexists; reflexivity).
      apply (proj1 (byType_keys ts k)) in Hs as (x & Hx & Hi & Ht).
      destruct Hk. rewrite <- Ht. apply Hty; assumption. }
    assert (Hsome : is_Some (EnergySystem.importsByType (EnergySystem.reportTrades ts) ty)).
    { apply (proj1 (byType_keys ts ty)). exists r. repeat split; auto. }
    destruct (single_type_imports ts ty Hty) as [[Hnone _]|Hval].
    { rewrite Hnone in Hsome. destruct Hsome as [x Hx]. discriminate. }
    unfold EnergySystem.entries, allEnergyTypes. simpl.
    destruct ty; rewrite Hval, ?Hother by discriminate; reflexivity.
  - intros Hall. destruct (no_exports ts Hall) as [He Hnone].
    split; [exact He|]. split.
    + unfold EnergySystem.entries, allEnergyTypes. simpl. rewrite !Hnone. reflexivity.
    + unfold EnergySystem.netBalance. rewrite He. apply Binary64Edge.sub_zero.
Qed.

(** ** createTestData *)

Lemma transform_app (f : ascii -> ascii) (a b : string) :
  transform f (a +:+ b) = transform f a +:+ transform f b.
Proof.
  induction a as [|x a IH]; [reflexivity|].
  rewrite append_String. simpl. rewrite IH, append_String. reflexivity.
Qed.

(** A customer without bills is billed and pays bill 0 with
    [getTotalOwed()]: the bill is paid unless its amount is NaN. *)
Lemma bill_then_pay (now : Z) (rate : float) (c : Customer.t) :
  Customer.payments c = [] ->
  let billed := Customer.createBill now rate c in
  let amt := (Customer.used c * rate)%float in
  snd (Customer.makePayment 0 (Customer.getTotalOwed billed) billed)
  = if is_nan amt then billed
    else Customer.set_reminderSent false
           (Customer.set_payments
              [ {| Payment.amount := amt; Payment.date := now; Payment.isPaid := true |} ]
              billed).
Proof.
  intros Hnil. simpl.
  unfold Customer.makePayment, Customer.getTotalOwed, Customer.createBill.
  simpl. rewrite Hnil. simpl.
  destruct (is_nan (Customer.used c * rate)%float) eqn:Hn.
  - rewrite (proj1 (Binary64Edge.nan_leb _ (0 + Customer.used c * rate)%float Hn)).
    reflexivity.
  - rewrite (Binary64Edge.leb_zero_plus _ Hn). reflexivity.
Qed.

Lemma lookup_combine_seq {A} (l : list A) (k : nat) (x : A) :
  l !! k = Some x -> In (k, x) (combine (seq 0 (length l)) l).
Proof.
  induction l as [|y l IH] using rev_ind; [discriminate|].
  intros Hk. rewrite combine_seq_snoc, in_app_iff.
  destruct (decide (k < length l)%nat) as [Hlt|Hge].
  - left. apply IH. rewrite lookup_app_l in Hk by exact Hlt. exact Hk.
  - right. rewrite lookup_app_r in Hk by lia.
    destruct (k - length l)%nat as [|n] eqn:Hd; [|destruct n; discriminate].
    injection Hk as <-. left. f_equal. lia.
Qed.

Lemma bucketOf_provinces (prov : string) (cs cs' : list Customer.t) :
  map Customer.province cs = map Customer.province cs' ->
  bucketOf prov cs = bucketOf prov cs'.
Proof.
  revert cs'. induction cs as [|c cs IH] using rev_ind; intros cs' Hmap.
  - symmetry in Hmap. apply map_eq_nil in Hmap. subst cs'. reflexivity.
  - destruct cs' as [|c' cs' _] using rev_ind.
    + apply map_eq_nil in Hmap. destruct cs; discriminate.
    + rewrite !map_app in Hmap. simpl in Hmap.
      apply app_inj_tail in Hmap as [Hmap Hc].
      rewrite !bucketOf_snoc, (IH cs' Hmap), Hc.
      assert (Hlen : length cs = length cs')
        by (rewrite <- (length_map Customer.province cs), Hmap, length_map; reflexivity).
      rewrite Hlen. reflexivity.
Qed.

Lemma populate_reachable (cs : list Customer.t) :
  EnergySystem.reachable (EnergySystem.populate cs).
Proof.
  unfold EnergySystem.populate.
  induction cs as [|c cs IH] using rev_ind; [constructor|].
  rewrite fold_left_app. simpl. constructor. exact IH.
Qed.

Lemma populate_customers (cs : list Customer.t) (sys : EnergySystem.t) :
  EnergySystem.customers (fold_left (fun s c => EnergySystem.addCustomer c s) cs sys)
  = EnergySystem.customers sys ++ cs.
Proof.
  revert sys. induction cs as [|c cs IH]; intros sys; simpl.
  - rewrite app_nil_r. reflexivity.
  - rewrite IH. simpl. rewrite <- app_assoc. reflexivity.
Qed.

(** The slot list, position by position. *)
Lemma allSlots_lookup (k : nat) (slot : string * Z * Z) :
  allSlots EnergySystem.provs 1001 !! k = Some slot ->
  exists prov,
    EnergySystem.provs !! (k / 100)%nat = Some prov /\
    slot = (prov, Z.of_nat (k mod 100), 1001 + Z.of_nat k).
Proof.
  intros Hk. apply lookup_combine_seq in Hk.
  assert (Hall :
    forallb
      (fun ks : nat * (string * Z * Z) =>
         let '(k, (p, i, id)) := ks in
         match EnergySystem.provs !! (k / 100)%nat with
         | Some prov => String.eqb prov p
         | None => false
         end && (i =? Z.of_nat (k mod 100)) && (id =? 1001 + Z.of_nat k))
      (combine (seq 0 (length (allSlots EnergySystem.provs 1001)))
         (allSlots EnergySystem.provs 1001)) = true)
    by (vm_compute; reflexivity).
  rewrite forallb_forall in Hall. specialize (Hall _ Hk).
  destruct slot as [[p i] id]. cbv beta iota in Hall.
  destruct (EnergySystem.provs !! (k / 100)%nat) as [prov|];
    [|simpl in Hall; discriminate].
  apply andb_true_iff in Hall as [Hall Hid]. apply andb_true_iff in Hall as [Hp Hi].
  apply String.eqb_eq in Hp. apply Z.eqb_eq in Hi, Hid. subst.
  exists p. split; reflexivity.
Qed.

Section TestDataFacts.

Variable Rng : Type.
Variable uniform_int : Z -> Z -> Rng -> Z * Rng.
Variable uniform_real : float -> float -> Rng -> float * Rng.

Local Abbreviation testCustomer := (EnergySystem.testCustomer Rng uniform_int uniform_real).
Local Abbreviation testStep := (EnergySystem.testStep Rng uniform_int uniform_real).
Local Abbreviation testProvince := (EnergySystem.testProvince Rng uniform_int uniform_real).
Local Abbreviation testTrade := (EnergySystem.testTrade Rng uniform_int uniform_real).
Local Abbreviation createTestData :=
  (EnergySystem.createTestData Rng uniform_int uniform_real).

Lemma testCustomer_shape (now : Z) (rates : EnergyType -> float) (prov : string)
    (i id : Z) (g : Rng) :
  test_customer now (prov, i, id) (fst (testCustomer now rates prov i id g)).
Proof.
  unfold EnergySystem.testCustomer, EnergySystem.randType, EnergySystem.randNum.
  destruct (uniform_int 0 _ g) as [fi g1].
  destruct (uniform_int 0 _ g1) as [li g2].
  destruct (uniform_int 0 _ g2) as [si g3].
  destruct (uniform_int 100 9999 g3) as [num g4].
  destruct (uniform_int 0 3 g4) as [ti g5].
  destruct (uniform_real 250 1000 g5) as [alloc g6].
  destruct (uniform_real 50 _ g6) as [amt g7].
  match goal with
  | |- context [Customer.createBill now (rates ?t) _] => generalize (rates t)
  end.
  intros rate.
  match goal with
  | |- context [Customer.useEnergy amt ?c] => set (c0 := c)
  end.
  assert (Hc1 : Customer.id (snd (Customer.useEnergy amt c0)) = id /\
                Customer.province (snd (Customer.useEnergy amt c0)) = prov /\
                (exists local, Customer.email (snd (Customer.useEnergy amt c0))
                               = local +:+ "@email.com") /\
                Customer.reminderSent (snd (Customer.useEnergy amt c0)) = false /\
                Customer.payments (snd (Customer.useEnergy amt c0)) = [] /\
                Customer.maintenance (snd (Customer.useEnergy amt c0)) = []).
  { assert (Hmail : exists local, Customer.email c0 = local +:+ "@email.com").
    { subst c0. cbn [Customer.email Customer.new]. rewrite !transform_app.
      change (transform tolower "@email.com") with "@email.com".
      rewrite <- append_assoc. eexists. reflexivity. }
    unfold Customer.useEnergy.
    destruct (_ <=? _)%float; simpl; repeat split; try reflexivity; exact Hmail. }
  generalize dependent (snd (Customer.useEnergy amt c0)). clear c0.
  intros c1 (Hid & Hprov & Hmail & Hsent & Hpay & Hmaint).
  unfold test_customer.
  destruct (Z.rem i 15 =? 0);
    [destruct (uniform_real 50 200 g7) as [k g8]|];
    (destruct (Z.rem i 3 =? 0);
     [destruct (Z.rem i 9 =? 0); cbn [negb];
      [|rewrite (bill_then_pay now rate c1 Hpay);
        destruct (is_nan (Customer.used c1 * rate)%float) eqn:Hn]|]);
    simpl; rewrite ?Hpay, ?Hmaint;
    (split; [exact Hid|]); (split; [exact Hprov|]); (split; [exact Hmail|]);
    (split; [try exact Hsent; reflexivity|]);
    (split; [|reflexivity]);
    try (exists (Customer.used c1 * rate)%float; simpl; rewrite ?Hn; reflexivity);
    exists 0%float; reflexivity.
Qed.

Lemma testProvince_loop (now : Z) (prov : string) (counters : list Z) :
  forall sys id g,
  exists cs g',
    fold_left (testStep now prov) counters (sys, id, g)
    = (fold_left (fun s c => EnergySystem.addCustomer c s) cs sys,
       id + Z.of_nat (length counters), g') /\
    Forall2 (test_customer now) (slotsOf prov counters id) cs.
Proof.
  induction counters as [|i counters IH]; intros sys id g.
  - exists [], g. simpl. rewrite Z.add_0_r. split; [reflexivity | constructor].
  - cbn [fold_left slotsOf]. unfold EnergySystem.testStep at 2.
    pose proof (testCustomer_shape now (EnergySystem.rates sys) prov i id g) as Hc.
    destruct (testCustomer now (EnergySystem.rates sys) prov i id g) as [cust g1].
    destruct (IH (EnergySystem.addCustomer cust sys) (id + 1) g1)
      as (cs & g' & Heq & Hall).
    exists (cust :: cs), g'. split.
    + rewrite Heq. cbn [fold_left]. do 2 f_equal. rewrite length_cons. lia.
    + constructor; [exact Hc | exact Hall].
Qed.

Lemma testProvinces_loop (now : Z) (ps : list string) :
  forall sys id g,
  exists cs g',
    fold_left (testProvince now) ps (sys, id, g)
    = (fold_left (fun s c => EnergySystem.addCustomer c s) cs sys,
       id + 100 * Z.of_nat (length ps), g') /\
    Forall2 (test_customer now) (allSlots ps id) cs.
Proof.
  induction ps as [|p ps IH]; intros sys id g.
  - exists [], g. simpl. rewrite Z.add_0_r. split; [reflexivity | constructor].
  - cbn [fold_left allSlots]. unfold EnergySystem.testProvince at 2.
    destruct (testProvince_loop now p (seqZ 0 100) sys id g)
      as (cs1 & g1 & Heq1 & Hall1).
    rewrite Heq1.
    change (Z.of_nat (length (seqZ 0 100))) with 100.
    destruct (IH (fold_left (fun s c => EnergySystem.addCustomer c s) cs1 sys)
                (id + 100) g1) as (cs2 & g2 & Heq2 & Hall2).
    exists (cs1 ++ cs2), g2. split.
    + rewrite Heq2, fold_left_app. do 2 f_equal. rewrite length_cons. lia.
    + apply Forall2_app; assumption.
Qed.

Lemma testTrade_loop (now : Z) (counters : list Z) :
  forall sys g,
  exists rs g',
    fold_left (testTrade now) counters (sys, g)
    = ({| EnergySystem.customers := EnergySystem.customers sys;
          EnergySystem.provinces := EnergySystem.provinces sys;
          EnergySystem.rates := EnergySystem.rates sys;
          EnergySystem.trades := EnergySystem.trades sys ++ rs |}, g') /\
    Forall2 (fun i r => ImportExport.isImport r = negb (Z.rem i 3 =? 0) /\
                        ImportExport.date r = now) counters rs.
Proof.
  induction counters as [|i counters IH]; intros sys g.
  - exists [], g. simpl. rewrite app_nil_r. destruct sys. split; [reflexivity | constructor].
  - cbn [fold_left]. unfold EnergySystem.testTrade at 2.
    unfold EnergySystem.randType, EnergySystem.randNum.
    destruct (uniform_int 0 3 g) as [ti g1].
    destruct (uniform_real 1000 10000 g1) as [qty g2].
    destruct (uniform_real _ _ g2) as [price g3].
    match goal with
    | |- context [EnergySystem.addImportExport ?r sys] => set (r0 := r)
    end.
    destruct (IH (EnergySystem.addImportExport r0 sys) g3) as (rs & g' & Heq & Hall).
    exists (r0 :: rs), g'. split.
    + rewrite Heq. simpl. rewrite <- app_assoc. reflexivity.
    + constructor; [split; reflexivity | exact Hall].
Qed.

(** The directory [createTestData] leaves when called on a new system: the
    customers are [cs], put in by [addCustomer] one after the other, and the
    trades are [rs]. *)
Lemma createTestData_result (now : Z) (g : Rng) :
  exists cs rs,
    let sys := fst (createTestData now EnergySystem.new g) in
    EnergySystem.customers sys = cs /\
    EnergySystem.provinces sys = EnergySystem.provinces (EnergySystem.populate cs) /\
    EnergySystem.rates sys = EnergySystem.rates EnergySystem.new /\
    EnergySystem.trades sys = rs /\
    Forall2 (test_customer now) (allSlots EnergySystem.provs 1001) cs /\
    Forall2 (fun i r => ImportExport.isImport r = negb (Z.rem i 3 =? 0) /\
                        ImportExport.date r = now) (seqZ 0 30) rs.
Proof.
  unfold EnergySystem.createTestData.
  destruct (testProvinces_loop now EnergySystem.provs EnergySystem.new 1001 g)
    as (cs & g1 & Heq & Hcs).
  rewrite Heq.
  destruct (testTrade_loop now (seqZ 0 30)
              (fold_left (fun s c => EnergySystem.addCustomer c s) cs EnergySystem.new) g1)
    as (rs & g2 & Heq2 & Hrs).
  rewrite Heq2. exists cs, rs. cbn [fst EnergySystem.customers EnergySystem.provinces
                                    EnergySystem.rates EnergySystem.trades].
  fold (EnergySystem.populate cs).
  split; [apply (populate_customers cs EnergySystem.new)|].
  split; [reflexivity|].
  split.
  { clear. unfold EnergySystem.populate.
    induction cs as [|c cs IH] using rev_ind; [reflexivity|].
    rewrite fold_left_app. exact IH. }
  split; [|split; assumption].
  clear. unfold EnergySystem.populate.
  induction cs as [|c cs IH] using rev_ind; [reflexivity|].
  rewrite fold_left_app. exact IH.
Qed.

End TestDataFacts.

Lemma test_customer_province (now : Z) (slots : list (string * Z * Z))
    (cs : list Customer.t) :
  Forall2 (test_customer now) slots cs ->
  map Customer.province cs
  = map Customer.province
      (map (fun slot : string * Z * Z =>
              Customer.new 0 EmptyString (fst (fst slot)) EmptyString EmptyString
                CRUDE_OIL 0)
           slots).
Proof.
  induction 1 as [|[[p i] id] c slots cs Hc _ IH]; [reflexivity|].
  simpl. rewrite IH. destruct Hc as (_ & -> & _). reflexivity.
Qed.

Lemma test_customer_not_overdue (now query : Z) (slot : string * Z * Z)
    (c : Customer.t) :
  test_customer now slot c -> query < now + 2678400 ->
  Customer.hasOverdue query c = false.
Proof.
  destruct slot as [[p i] id]. intros (_ & _ & _ & _ & [amt Hpay] & _) Hq.
  destruct (Customer.hasOverdue query c) eqn:Ho; [|reflexivity].
  apply hasOverdue_seconds in Ho as (b & Hin & _ & Hd). rewrite Hpay in Hin.
  destruct (Z.rem i 3 =? 0); [|destruct Hin].
  destruct Hin as [<-|[]]. simpl in Hd. lia.
Qed.

Lemma overdueLoop_none (now : Z) (cs : list Customer.t) (i : nat) :
  (forall c, In c cs -> Customer.hasOverdue now c = false) ->
  EnergySystem.overdueLoop now cs i [] = [].
Proof.
  revert i. induction cs as [|c cs IH]; intros i Hall; [reflexivity|].
  simpl. rewrite (Hall c) by (left; reflexivity).
  apply IH. intros c' Hc'. apply Hall. right. exact Hc'.
Qed.

Lemma filter_length_map {A} (f : A -> bool) (l : list A) :
  length (List.filter f l) = length (List.filter (fun b : bool => b) (map f l)).
Proof.
  induction l as [|x l IH]; [reflexivity|].
  simpl. destruct (f x); simpl; rewrite IH; reflexivity.
Qed.

(** What [main] starts from.  [createTestData] on a new system, whatever the
    generator draws and whenever it runs: 500 customers; the customer at
    position [k] is in province number [k / 100] of the five, has the id
    [1001 + k], an email that ends in ["@email.com"], no reminder sent, one
    bill dated [now] if [k mod 100] is a multiple of 3 and no bill otherwise
    (the bill unpaid if [k mod 100] is a multiple of 9, and else paid unless
    its amount is NaN), and one maintenance record if [k mod 100] is a
    multiple of 15 and none otherwise; the index holds, for province number
    [j], the positions [100 j] to [100 j + 99] and has no other province; the
    catalog is the constructor's; and there are 30 trades dated [now], the
    trade at position [i] an export if [i] is a multiple of 3 and an import
    otherwise, 20 imports in all. *)
Theorem createTestData_fills_the_directory (Rng : Type)
    (uniform_int : Z -> Z -> Rng -> Z * Rng)
    (uniform_real : float -> float -> Rng -> float * Rng) (now : Z) (g : Rng) :
  let sys :=
    fst (EnergySystem.createTestData Rng uniform_int uniform_real now
           EnergySystem.new g) in
  length (EnergySystem.customers sys) = 500%nat /\
  (forall k c, EnergySystem.customers sys !! k = Some c ->
     exists prov, EnergySystem.provs !! (k / 100)%nat = Some prov /\
       test_customer now (prov, Z.of_nat (k mod 100)%nat, 1001 + Z.of_nat k) c) /\
  (forall j prov, EnergySystem.provs !! j = Some prov ->
     EnergySystem.provinces sys !! prov = Some (seqZ (100 * Z.of_nat j) 100)) /\
  (forall prov, ~ In prov EnergySystem.provs ->
     EnergySystem.provinces sys !! prov = None) /\
  EnergySystem.rates sys = EnergySystem.rates EnergySystem.new /\
  length (EnergySystem.trades sys) = 30%nat /\
  (forall i r, EnergySystem.trades sys !! i = Some r ->
     ImportExport.isImport r = negb (Z.rem (Z.of_nat i) 3 =? 0) /\
     ImportExport.date r = now) /\
  length (List.filter ImportExport.isImport (EnergySystem.trades sys)) = 20%nat.
Proof.
  destruct (createTestData_result Rng uniform_int uniform_real now g)
    as (cs & rs & Hcust & Hprov & Hrates & Htrades & Hcs & Hrs).
  cbv zeta in *. rewrite Hcust, Hprov, Hrates, Htrades. clear Hcust Hprov Hrates Htrades.
  assert (Hpos : forall k c, cs !! k = Some c ->
            exists prov, EnergySystem.provs !! (k / 100)%nat = Some prov /\
              test_customer now (prov, Z.of_nat (k mod 100)%nat, 1001 + Z.of_nat k) c).
  { intros k c Hk.
    destruct (Forall2_lookup_r _ _ _ _ _ Hcs Hk) as (slot & Hslot & Hshape).
    apply allSlots_lookup in Hslot as (prov & Hp & ->).
    exists prov. split; assumption. }
  assert (Hidx := reachable_index _ (populate_reachable cs)).
  assert (Hpop : EnergySystem.customers (EnergySystem.populate cs) = cs)
    by apply (populate_customers cs EnergySystem.new).
  rewrite Hpop in Hidx.
  split; [|split; [exact Hpos|split; [|split; [|split; [reflexivity|split; [|split]]]]]].
  - rewrite <- (Forall2_length _ _ _ Hcs). vm_compute. reflexivity.
  - intros j prov Hj. destruct (Hidx prov) as [Hb Hne].
    assert (Hbucket : bucketOf prov cs = seqZ (100 * Z.of_nat j) 100).
    { rewrite (bucketOf_provinces prov cs _ (test_customer_province now _ cs Hcs)).
      destruct j as [|[|[|[|[|j]]]]]; try discriminate; injection Hj as <-;
        vm_compute; reflexivity. }
    rewrite Hbucket in Hb.
    destruct (EnergySystem.provinces (EnergySystem.populate cs) !! prov) as [ids|].
    + cbn [default from_option id] in Hb. rewrite Hb. reflexivity.
    + apply (f_equal length) in Hb. rewrite length_seqZ in Hb. discriminate.
  - intros prov Hnot. destruct (Hidx prov) as [Hb Hne].
    assert (Hbucket : bucketOf prov cs = []).
    { destruct (bucketOf prov cs) as [|idx ids] eqn:Hbk; [reflexivity|].
      assert (Hin : In idx (bucketOf prov cs)) by (rewrite Hbk; left; reflexivity).
      apply bucketOf_In in Hin as (k & c & _ & Hk & Hp).
      destruct (Hpos k c Hk) as (prov' & Hprov' & (_ & Hp' & _)).
      destruct Hnot. rewrite <- Hp, Hp'.
      apply list_elem_of_In. eapply list_elem_of_lookup_2. exact Hprov'. }
    rewrite Hbucket in Hb.
    destruct (EnergySystem.provinces (EnergySystem.populate cs) !! prov) as [ids|];
      [|reflexivity].
    cbn [default from_option id] in Hb. subst ids. destruct Hne. reflexivity.
  - rewrite <- (Forall2_length _ _ _ Hrs). reflexivity.
  - intros i r Hi.
    destruct (Forall2_lookup_r _ _ _ _ _ Hrs Hi) as (x & Hx & Hr).
    apply lookup_seqZ in Hx as [-> _]. rewrite Z.add_0_l in Hr. exact Hr.
  - rewrite filter_length_map.
    assert (Hmap : map ImportExport.isImport rs
                   = map (fun i => negb (Z.rem i 3 =? 0)) (seqZ 0 30)).
    { clear -Hrs. induction Hrs as [|i r counters rs [Hr _] _ IH]; [reflexivity|].
      simpl. rewrite Hr, IH. reflexivity. }
    rewrite Hmap. vm_compute. reflexivity.
Qed.

(** The test data and the clock.  The bills of the test data are dated at
    its creation, so for 31 days (2678400 seconds) no test customer is
    overdue: "show overdue customers" finds nobody, and "send reminders"
    prints nothing and changes nothing.  From then on, and as long as the day
    count fits an [int] (less than 2^31 days after the creation), every
    customer whose [k mod 100] is a multiple of 9 is overdue (these are the
    bills the loop leaves unpaid); from 2^31 days on nobody is overdue; and a
    customer whose [k mod 100] is not a multiple of 3 never is. *)
Theorem test_data_overdue_only_after_31_days (Rng : Type)
    (uniform_int : Z -> Z -> Rng -> Z * Rng)
    (uniform_real : float -> float -> Rng -> float * Rng)
    (formatDate : Z -> string) (fixed2 : float -> string) (now query : Z) (g : Rng) :
  let sys :=
    fst (EnergySystem.createTestData Rng uniform_int uniform_real now
           EnergySystem.new g) in
  (query < now + 2678400 ->
     EnergySystem.getOverdueCustomers query sys = [] /\
     EnergySystem.overdueCount query (EnergySystem.customers sys) = 0 /\
     EnergySystem.sendReminders formatDate fixed2 query sys = ([], sys)) /\
  (forall k c, EnergySystem.customers sys !! k = Some c ->
     (now + 2678400 <= query -> query < now + 2147483648 * 86400 ->
        Z.rem (Z.of_nat (k mod 100)%nat) 9 = 0 ->
        Customer.hasOverdue query c = true) /\
     (now + 2147483648 * 86400 <= query -> Customer.hasOverdue query c = false) /\
     (Z.rem (Z.of_nat (k mod 100)%nat) 3 <> 0 -> Customer.hasOverdue query c = false)).
Proof.
  destruct (createTestData_result Rng uniform_int uniform_real now g)
    as (cs & rs & Hcust & _ & _ & _ & Hcs & _).
  cbv zeta in *.
  set (sys := fst (EnergySystem.createTestData Rng uniform_int uniform_real now
                     EnergySystem.new g)) in *.
  split.
  - intros Hq.
    assert (Hnone : forall c, In c (EnergySystem.customers sys) ->
                              Customer.hasOverdue query c = false).
    { intros c Hc. rewrite Hcust in Hc.
      apply list_elem_of_In, list_elem_of_lookup in Hc as [k Hk].
      destruct (Forall2_lookup_r _ _ _ _ _ Hcs Hk) as (slot & _ & Hshape).
      exact (test_customer_not_overdue now query slot c Hshape Hq). }
    split; [apply overdueLoop_none; exact Hnone|]. split.
    + unfold EnergySystem.overdueCount. revert Hnone. clear. generalize 0.
      induction (EnergySystem.customers sys) as [|c l IH]; intros n Hnone;
        [reflexivity|].
      simpl. rewrite (Hnone c) by (left; reflexivity).
      apply IH. intros c' Hc'. apply Hnone. right. exact Hc'.
    + unfold EnergySystem.sendReminders.
      assert (Hmap : map (EnergySystem.remindOne formatDate fixed2 query)
                       (EnergySystem.customers sys)
                     = map (fun c => ([], c)) (EnergySystem.customers sys)).
      { apply map_ext_in. intros c Hc.
        destruct (remindOne_cases formatDate fixed2 query c) as [(Ho & _)|[_ H]];
          [|exact H].
        rewrite (Hnone c Hc) in Ho. discriminate. }
      cbv zeta. rewrite Hmap.
      assert (Hfst : forall l : list Customer.t,
                concat (map fst (map (fun c => (@nil string, c)) l)) = [])
        by (induction l; simpl; auto).
      assert (Hsnd : forall l : list Customer.t,
                map snd (map (fun c => (@nil string, c)) l) = l)
        by (induction l as [|c l IH]; simpl; [|rewrite IH]; reflexivity).
      rewrite Hfst, Hsnd. destruct sys. reflexivity.
  - intros k c Hk. rewrite Hcust in Hk.
    destruct (Forall2_lookup_r _ _ _ _ _ Hcs Hk) as (slot & Hslot & Hshape).
    apply allSlots_lookup in Hslot as (prov & _ & ->).
    destruct Hshape as (_ & _ & _ & _ & [amt Hpay] & _). split; [|split].
    + intros Hq Hint H9. apply hasOverdue_seconds.
      assert (H3 : Z.rem (Z.of_nat (k mod 100)%nat) 3 = 0).
      { clear -H9. Z.to_euclidean_division_equations. lia. }
      rewrite H3, H9 in Hpay. simpl in Hpay. rewrite Hpay.
      eexists. split; [left; reflexivity|]. simpl. split; [reflexivity | lia].
    + intros Hq. destruct (Customer.hasOverdue query c) eqn:Ho; [|reflexivity].
      apply hasOverdue_seconds in Ho as (b & Hin & _ & _ & Hd). rewrite Hpay in Hin.
      destruct (Z.rem (Z.of_nat (k mod 100)%nat) 3 =? 0); [|destruct Hin].
      destruct Hin as [<-|[]]. simpl in Hd. lia.
    + intros H3. unfold Customer.hasOverdue. rewrite Hpay.
      destruct (Z.eqb_spec (Z.rem (Z.of_nat (k mod 100)%nat) 3) 0); [contradiction|].
      reflexivity.
Qed.

(** ** The allocation in the older report *)

(** Adding zero changes nothing, except that it turns [-0] into [+0]. *)
Lemma add_zero_r (x : float) :
  Prim2SF x <> S754_zero true -> (x + 0)%float = x.
Proof.
  intros Hx. apply Prim2SF_inj. rewrite add_spec, Binary64.Prim2SF_zero.
  unfold SF64add. destruct (Prim2SF x) as [s|s| |s m e]; try reflexivity.
  destruct s; [contradiction | reflexivity].
Qed.

Lemma left_plus_usage (c : Customer.t) :
  Customer.used c = 0%float -> Prim2SF (Customer.allocated c) <> S754_zero true ->
  (Customer.getEnergyLeft c + Customer.getCurrentUsage c)%float = Customer.allocated c.
Proof.
  intros Hu Ha. unfold Customer.getEnergyLeft, Customer.getCurrentUsage.
  rewrite Hu, Binary64Edge.sub_zero. apply add_zero_r. exact Ha.
Qed.

(** [energyprovider.cxx] reports as a province's allocation the sum of
    [getEnergyLeft() + getCurrentUsage()], that is of
    [(allocated - used) + used] in [double].  For a customer who has used
    nothing (as after a bill) this is the allocation, unless that is [-0];
    so over customers who have used nothing the older sum is the sum of the
    allocations that the later file reports.  In general it is not: for an
    allocation of 250.1 and a usage of 52.8 it is 250.10000000000002. *)
Theorem older_report_rebuilds_allocation (now : Z) (cs : list Customer.t)
    (ids : list Z) (acc : EnergySystem.ProvinceTotals) :
  (forall c, Customer.used c = 0%float ->
     Prim2SF (Customer.allocated c) <> S754_zero true ->
     (Customer.getEnergyLeft c + Customer.getCurrentUsage c)%float
     = Customer.allocated c) /\
  ((forall c, In c cs -> Customer.used c = 0%float /\
                         Prim2SF (Customer.allocated c) <> S754_zero true) ->
   EnergySystem.allocatedOlder cs ids (EnergySystem.p_allocated acc)
   = option_map EnergySystem.p_allocated (EnergySystem.provinceLoop now cs ids acc)) /\
  (let c := snd (Customer.useEnergy 52.8
                   (Customer.new 1001 "Jane Smith" "Ontario" "jsmith@email.com"
                      "12 Walker Rd, Ontario" SOLAR 250.1)) in
   Customer.allocated c = 250.1%float /\
   (Customer.getEnergyLeft c + Customer.getCurrentUsage c)%float
   = 250.10000000000002%float /\
   (250.1 <? 250.10000000000002)%float = true).
Proof.
  split; [exact left_plus_usage|]. split.
  - intros Hall. revert acc. induction ids as [|idx ids IH]; intros acc; [reflexivity|].
    simpl. destruct ((0 <=? idx) && (idx <? Z.of_nat (length cs))); [|reflexivity].
    destruct (cs !! Z.to_nat idx) as [c|] eqn:Hc; [|reflexivity].
    destruct (Hall c) as [Hu Ha].
    { apply list_elem_of_In. eapply list_elem_of_lookup_2. exact Hc. }
    rewrite (left_plus_usage c Hu Ha). apply (IH (EnergySystem.mkTotals _ _ _ _)).
  - vm_compute. repeat split; reflexivity.
Qed.
